(** * fftabs: querying the open Firefox tabs of a session store

    A shallow embedding of [fftabs.py] and the properties of its
    extractor, scorer and ranker.

    Conventions of the embedding.
    - A Python [str] is the list of its Unicode code points ([pystr]).
    - A Python number that the scorer computes ([total], a ratio, the
      threshold) is an exact rational of [Q]: the ratios are quotients of
      two small integers and the code only adds and compares them.
    - Functions of the Python runtime and of its libraries whose tables are
      not part of the program ([str.lower], [urllib.parse.urlparse], the
      file system, [lz4.block.decompress], [json.loads]) are Section
      variables: what is proved holds for every such function.
      What [difflib.SequenceMatcher] runs for [ratio()] is embedded in
      [Module Difflib].
    - A raised exception is the [Raise] case of [result]. *)

From Stdlib Require Import String Ascii.
From Stdlib Require Import List Arith PeanoNat NArith ZArith QArith Qminmax.
From Stdlib Require Import Bool Lia Lqa Sorting.Sorted Permutation.
Import ListNotations.

Local Open Scope nat_scope.

(** ** Strings *)

(** A character is a Unicode code point. *)
Definition char := N.

(** A Python [str]. *)
Definition pystr := list char.

(** [str "mail"] is the Python string with these (ASCII or Latin-1) characters. *)
Definition str (s : string) : pystr := map N_of_ascii (list_ascii_of_string s).

(** [s.startswith(sub)] *)
Fixpoint startswith (s sub : pystr) {struct sub} : bool :=
  match sub, s with
  | [], _ => true
  | _ :: _, [] => false
  | c :: sub', d :: s' => N.eqb c d && startswith s' sub'
  end.

(** [sub in s] for two strings: [sub] occurs in [s] as a contiguous run. *)
Fixpoint contains (s sub : pystr) : bool :=
  startswith s sub ||
  match s with
  | [] => false
  | _ :: s' => contains s' sub
  end.

(** ** difflib.SequenceMatcher

    [SequenceMatcher()] is created with [isjunk=None] and [autojunk=True];
    [set_seq1(a)] and [set_seq2(b)] install the two sequences, and
    [ratio()] is read once per pair. *)
Module Difflib.

Section Matcher.

Variables a b : pystr.

(** The positions of [elt] in [b], in increasing order, counted from [i]. *)
Fixpoint indices_from (elt : char) (s : pystr) (i : nat) : list nat :=
  match s with
  | [] => []
  | c :: s' =>
      if N.eqb c elt then i :: indices_from elt s' (S i)
      else indices_from elt s' (S i)
  end.

(** [__chain_b]: with [autojunk], in a [b] of 200 elements or more an
    element that occurs more than [n // 100 + 1] times is popular and is
    deleted from [b2j]. *)
Definition popular (elt : char) : bool :=
  (200 <=? length b) &&
  (length b / 100 + 1 <? length (indices_from elt b 0)).

(** [b2j.get(elt, [])] *)
Definition b2j (elt : char) : list nat :=
  if popular elt then [] else indices_from elt b 0.

(** [isjunk] is [None]: the set [bjunk] stays empty. *)
Definition isbjunk (c : char) : bool := false.

(** A dictionary from positions of [b] to lengths; every stored length is
    positive, so an absent key is the entry [0]. *)
Definition j2len_t := nat -> nat.
Definition j2len_empty : j2len_t := fun _ => 0.
Definition j2len_set (d : j2len_t) (j k : nat) : j2len_t :=
  fun x => if x =? j then k else d x.

(** [j2len.get(j-1, 0)]: the key [-1] is never present. *)
Definition j2lenget_pred (d : j2len_t) (j : nat) : nat :=
  match j with
  | O => 0
  | S j' => d j'
  end.

(** A match [(i, j, size)]: [a[i:i+size] == b[j:j+size]]. *)
Definition Match := (nat * nat * nat)%type.

Definition size_of (m : Match) : nat := snd m.

(** The inner loop of [find_longest_match], over [b2j[a[i]]]: [continue]
    below [blo], [break] from [bhi] on. *)
Fixpoint scan_row (i blo bhi : nat) (j2len : j2len_t) (js : list nat)
    (newj2len : j2len_t) (best : Match) : j2len_t * Match :=
  match js with
  | [] => (newj2len, best)
  | j :: js' =>
      if j <? blo then scan_row i blo bhi j2len js' newj2len best
      else if bhi <=? j then (newj2len, best)
      else
        let k := j2lenget_pred j2len j + 1 in
        let newj2len := j2len_set newj2len j k in
        let best :=
          if size_of best <? k then (i + 1 - k, j + 1 - k, k) else best in
        scan_row i blo bhi j2len js' newj2len best
  end.

(** The outer loop, [for i in range(alo, ahi)]. *)
Fixpoint scan_rows (rows : list nat) (blo bhi : nat) (j2len : j2len_t)
    (best : Match) : Match :=
  match rows with
  | [] => best
  | i :: rows' =>
      let '(newj2len, best) :=
        scan_row i blo bhi j2len (b2j (nth i a 0%N)) j2len_empty best in
      scan_rows rows' blo bhi newj2len best
  end.

(** [while besti > alo and bestj > blo and <junk test> and
    a[besti-1] == b[bestj-1]]: the loop runs at most [besti] times. *)
Fixpoint extend_left (junk : bool) (n alo blo : nat) (best : Match) : Match :=
  let '(besti, bestj, bestsize) := best in
  match n with
  | O => best
  | S n' =>
      if (alo <? besti) && (blo <? bestj)
         && Bool.eqb (isbjunk (nth (bestj - 1) b 0%N)) junk
         && N.eqb (nth (besti - 1) a 0%N) (nth (bestj - 1) b 0%N)
      then extend_left junk n' alo blo (besti - 1, bestj - 1, bestsize + 1)
      else best
  end.

(** [while besti+bestsize < ahi and bestj+bestsize < bhi and <junk test>
    and a[besti+bestsize] == b[bestj+bestsize]]: at most [ahi] times. *)
Fixpoint extend_right (junk : bool) (n ahi bhi : nat) (best : Match) : Match :=
  let '(besti, bestj, bestsize) := best in
  match n with
  | O => best
  | S n' =>
      if (besti + bestsize <? ahi) && (bestj + bestsize <? bhi)
         && Bool.eqb (isbjunk (nth (bestj + bestsize) b 0%N)) junk
         && N.eqb (nth (besti + bestsize) a 0%N) (nth (bestj + bestsize) b 0%N)
      then extend_right junk n' ahi bhi (besti, bestj, bestsize + 1)
      else best
  end.

(** [find_longest_match(alo, ahi, blo, bhi)] *)
Definition find_longest_match (alo ahi blo bhi : nat) : Match :=
  let best := (alo, blo, 0) in
  let best := scan_rows (seq alo (ahi - alo)) blo bhi j2len_empty best in
  let best := extend_left false (fst (fst best)) alo blo best in
  let best := extend_right false ahi ahi bhi best in
  let best := extend_left true (fst (fst best)) alo blo best in
  let best := extend_right true ahi ahi bhi best in
  best.

(** A region [(alo, ahi, blo, bhi)] waiting in [queue]. *)
Definition region := (nat * nat * nat * nat)%type.

(** [while queue:] of [get_matching_blocks]; [queue.pop()] takes the
    region appended last, the head of the list here.  [fuel] bounds the
    number of turns. *)
Fixpoint matching_loop (fuel : nat) (queue : list region)
    (matching_blocks : list Match) : option (list Match) :=
  match fuel with
  | O => None
  | S fuel' =>
      match queue with
      | [] => Some matching_blocks
      | (alo, ahi, blo, bhi) :: queue =>
          let x := find_longest_match alo ahi blo bhi in
          let '(i, j, k) := x in
          if k =? 0 then matching_loop fuel' queue matching_blocks
          else
            let queue :=
              if (alo <? i) && (blo <? j) then (alo, i, blo, j) :: queue
              else queue in
            let queue :=
              if (i + k <? ahi) && (j + k <? bhi)
              then (i + k, ahi, j + k, bhi) :: queue
              else queue in
            matching_loop fuel' queue (matching_blocks ++ [x])
      end
  end.

(** The blocks that [get_matching_blocks] finds, in the order found.  Every
    turn of the loop either drops a region or splits it around a match of
    one element at least, so [2 * len(a) + 2] turns empty the queue
    ([matching_loop_returns]).  The library then sorts the blocks, merges
    adjacent ones and appends [(la, lb, 0)]: none of this changes the sum
    of the sizes, which is all that [ratio] reads. *)
Definition get_matching_blocks : list Match :=
  match matching_loop (2 * length a + 2) [(0, length a, 0, length b)] [] with
  | Some blocks => blocks
  | None => []
  end.

(** [sum(triple[-1] for triple in blocks)] *)
Definition sum_sizes (blocks : list Match) : nat :=
  fold_right (fun m acc => size_of m + acc) 0 blocks.

(** [matches] of [ratio()] *)
Definition matches : nat := sum_sizes get_matching_blocks.

(** [_calculate_ratio(matches, length)] *)
Definition calculate_ratio (matches length : nat) : Q :=
  if length =? 0 then 1%Q
  else (2 * inject_Z (Z.of_nat matches) / inject_Z (Z.of_nat length))%Q.

(** [ratio()], after [set_seq1(a)] and [set_seq2(b)] *)
Definition ratio : Q := calculate_ratio matches (length a + length b).

End Matcher.

End Difflib.

Arguments str s%_string.

(** ** Exceptions and results *)

(** The exceptions the program can end with.  [JSONDecodeError] and
    [UnicodeDecodeError] are subclasses of [ValueError]. *)
Inductive exn : Type :=
  | KeyError (key : pystr)
  | TypeError
  | AttributeError
  | ValueError
  | OSError
  | LZ4BlockError.

(** The outcome of a call: a value, or a raised exception. *)
Inductive result (A : Type) : Type :=
  | Ok (v : A)
  | Raise (e : exn).

Arguments Ok {A} v.
Arguments Raise {A} e.

Definition bind {A B : Type} (r : result A) (f : A -> result B) : result B :=
  match r with
  | Ok v => f v
  | Raise e => Raise e
  end.

Notation "x <- r ;; k" := (bind r (fun x => k))
  (at level 61, r at next level, right associativity).

(** A [for] loop whose body updates [acc] and may raise. *)
Fixpoint for_each {A T : Type} (l : list A) (acc : T)
    (body : T -> A -> result T) : result T :=
  match l with
  | [] => Ok acc
  | x :: l' => acc' <- body acc x ;; for_each l' acc' body
  end.

(** ** Parsed JSON *)

(** What [json.loads] returns: [None], a [bool], a number, a [str], a
    [list], or a [dict] given by its items in insertion order. *)
#[warnings="-register-all"]
Inductive json : Type :=
  | JNone
  | JBool (b : bool)
  | JNum (x : Q)
  | JStr (s : pystr)
  | JList (l : list json)
  | JDict (items : list (pystr * json)).

Fixpoint str_eqb (s t : pystr) : bool :=
  match s, t with
  | [], [] => true
  | c :: s', d :: t' => N.eqb c d && str_eqb s' t'
  | _, _ => false
  end.

Fixpoint dict_get (items : list (pystr * json)) (key : pystr) : option json :=
  match items with
  | [] => None
  | (k, v) :: items' => if str_eqb k key then Some v else dict_get items' key
  end.

(** [x[key]] with a [str] key: a [dict] is looked up, anything else does
    not take a string as index. *)
Definition getitem (x : json) (key : pystr) : result json :=
  match x with
  | JDict items =>
      match dict_get items key with
      | Some v => Ok v
      | None => Raise (KeyError key)
      end
  | _ => Raise TypeError
  end.

(** [for v in x]: the elements of a [list], the keys of a [dict], the
    characters of a [str]; the other values are not iterable. *)
Definition iter (x : json) : result (list json) :=
  match x with
  | JList l => Ok l
  | JDict items => Ok (map (fun kv => JStr (fst kv)) items)
  | JStr s => Ok (map (fun c => JStr [c]) s)
  | _ => Raise TypeError
  end.

(** A tab as [tab_info] builds it: the pair of whatever the entry holds
    under ["title"] and ["url"]. *)
Definition tab := (json * json)%type.

(** A tab as the scorer reads it, [(title, url)] with two strings. *)
Definition record := (pystr * pystr)%type.

(** ** The result of [urlparse] *)

(** The two attributes of [urllib.parse.ParseResult] that the program
    reads; [hostname] is [None] when the URL names no host. *)
Record ParseResult : Type := {
  hostname : option pystr;
  path : pystr
}.

(** ** The program *)

Definition bytes := list Byte.byte.

Definition Qltb (x y : Q) : bool := negb (Qle_bool y x).

(** [sorted(l, key=key)]: Python's sort is stable and compares keys with
    [<] only.  The sorted list is built from the right: an element goes in
    front of the first one whose key is not smaller than its own, so equal
    keys keep the order of [l]. *)
Fixpoint insert_by {A : Type} (key : A -> Q) (x : A) (l : list A) : list A :=
  match l with
  | [] => [x]
  | y :: l' =>
      if Qltb (key y) (key x) then y :: insert_by key x l'
      else x :: y :: l'
  end.

Definition sorted {A : Type} (key : A -> Q) (l : list A) : list A :=
  fold_right (insert_by key) [] l.

(** [enumerate(l, start)] *)
Definition enumerate {A : Type} (start : nat) (l : list A) : list (nat * A) :=
  combine (seq start (length l)) l.

(** [hash(v)] raises [TypeError] for a [list] and a [dict]. *)
Definition hashable (v : json) : bool :=
  match v with
  | JList _ | JDict _ => false
  | _ => true
  end.

(** [v == w] for two hashable values: [True == 1] and [False == 0], numbers
    compare by value, strings by their characters. *)
Definition scalar_eqb (v w : json) : bool :=
  let num (b : bool) : Q := if b then 1%Q else 0%Q in
  match v, w with
  | JNone, JNone => true
  | JBool b, JBool c => Bool.eqb b c
  | JBool b, JNum y => Qeq_bool (num b) y
  | JNum x, JBool c => Qeq_bool x (num c)
  | JNum x, JNum y => Qeq_bool x y
  | JStr s, JStr t => str_eqb s t
  | _, _ => false
  end.

Definition tab_eqb (t u : tab) : bool :=
  scalar_eqb (fst t) (fst u) && scalar_eqb (snd t) (snd u).

(** [tabs.add(t)] on a [set], kept as the list of its members without
    repetition, here in the order they were added.  (The order in which
    CPython iterates a set depends on the hashes; nothing below depends
    on the order.) *)
Definition set_add (tabs : list tab) (t : tab) : result (list tab) :=
  if hashable (fst t) && hashable (snd t) then
    Ok (if existsb (tab_eqb t) tabs then tabs else tabs ++ [t])
  else Raise TypeError.

(** [tabs.update(ts)] *)
Definition set_update (tabs : list tab) (ts : list tab) : result (list tab) :=
  for_each ts tabs set_add.

Module Fftabs.

Section Program.

(** [str.lower] of the Python runtime. *)
Variable lower : pystr -> pystr.

(** [urllib.parse.urlparse], on the URLs it parses.  (It raises
    [ValueError] when the authority of the URL has an unbalanced square
    bracket; such a call yields no score at all and is outside what is
    stated about scores.) *)
Variable urlparse : pystr -> ParseResult.

(** [open(path, "rb")] followed by reading the whole file. *)
Variable open_rb : pystr -> result bytes.

(** [lz4.block.decompress] *)
Variable lz4_block_decompress : bytes -> result bytes.

(** [json.loads] *)
Variable json_loads : bytes -> result json.

(** Load .jsonlz4 file as JSON. *)
Definition read_jsonlz4 (path : pystr) : result json :=
  f <- open_rb path ;;
  let data := skipn 8 f in  (* f.read(8) is the file header *)
  text <- lz4_block_decompress data ;;
  json_loads text.

(** From a sessionstore JSON file, return a list of tabs [(title, url)]. *)
Definition tab_info (data : json) : result (list tab) :=
  let tabs := [] in
  windows <- getitem data (str "windows") ;;
  windows <- iter windows ;;
  for_each windows tabs (fun tabs window =>
    window_tabs <- getitem window (str "tabs") ;;
    window_tabs <- iter window_tabs ;;
    for_each window_tabs tabs (fun tabs tab =>
      entries <- getitem tab (str "entries") ;;
      entries <- iter entries ;;
      for_each entries tabs (fun tabs entry =>
        title <- getitem entry (str "title") ;;
        url <- getitem entry (str "url") ;;
        Ok (tabs ++ [(title, url)])))).

(** The body of the loop of [diff_value]: [if string:] fails on [None]
    and on the empty string. *)
Definition add_ratio (query : pystr) (total : Q) (string : option pystr) : Q :=
  match string with
  | Some (c :: s) => (total + Difflib.ratio query (c :: s))%Q
  | _ => total
  end.

(** Sum of difflib ratios for title and various url parts. *)
Definition diff_value (query title url : pystr) : Q :=
  let parts := urlparse url in
  let strings := [Some title; Some url; hostname parts; Some (path parts)] in
  fold_left (add_ratio query) strings 0%Q.

(** Minimum exact string match length. *)
Definition MIN_LENGTH : nat := 3.
(** Score for finding an exact match. *)
Definition EXACT_VALUE : Q := 3.
(** Multiplied by diff_value result. *)
Definition RATIO_COEFF : Q := 1.

(** A numeric closeness score for a given query, pair. *)
Definition value (query : pystr) (tab : record) : Q :=
  let '(title, url) := tab in
  let query := lower query in
  let title := lower title in
  let url := lower url in
  let total := 0%Q in
  let total :=
    if MIN_LENGTH <=? length query then
      let total :=
        if contains title query then (total + EXACT_VALUE)%Q else total in
      if contains url query then (total + EXACT_VALUE)%Q else total
    else total in
  (total + diff_value query title url * RATIO_COEFF)%Q.

(** Minimum value to return. *)
Definition THRESHOLD : Q := 3 # 2.

(** Suggest tabs from data which match query well.  [nmax] is a count:
    the slice [[:nmax]] keeps the first [nmax] elements. *)
Definition suggest_tabs (tabs : list record) (query : pystr) (nmax : nat)
    : list record :=
  firstn nmax
    (sorted (fun tab => (- value query tab)%Q)
       (filter (fun tab => Qltb THRESHOLD (value query tab)) tabs)).

(** The tab as [value] unpacks it: [title.lower()] and [url.lower()] raise
    [AttributeError] unless both are strings. *)
Definition as_record (t : tab) : result record :=
  match t with
  | (JStr title, JStr url) => Ok (title, url)
  | _ => Raise AttributeError
  end.

Definition of_record (r : record) : tab := (JStr (fst r), JStr (snd r)).

(** [suggest_tabs(tabs, query)] on the set that the main block holds:
    [filter] calls [value] on every member, so the call raises as soon as
    one of them is not a pair of strings. *)
Definition suggest_tabs_of_set (tabs : list tab) (query : pystr)
    : result (list tab) :=
  records <- for_each tabs [] (fun acc t =>
               r <- as_record t ;; Ok (acc ++ [r])) ;;
  Ok (map of_record (suggest_tabs records query 10)).

(** Lines 120 to 123: the tabs of all the session files, in one set. *)
Definition collect_tabs (files : list pystr) : result (list tab) :=
  let tabs := [] in
  for_each files tabs (fun tabs file =>
    data <- read_jsonlz4 file ;;
    file_tabs <- tab_info data ;;
    set_update tabs file_tabs).

(** Lines 125 to 129: rank when [sys.argv] holds a query. *)
Definition suggested_tabs (argv : list pystr) (tabs : list tab)
    : result (list tab) :=
  match argv with
  | _ :: query :: _ => suggest_tabs_of_set tabs query
  | _ => Ok tabs
  end.

(** The main block, run on [sys.argv] and on the list [files] that
    [session_files()] returns; the result is the sequence of printed
    lines, [[i] tab]. *)
Definition main (argv : list pystr) (files : list pystr)
    : result (list (nat * tab)) :=
  tabs <- collect_tabs files ;;
  suggested <- suggested_tabs argv tabs ;;
  Ok (enumerate 1 suggested).

End Program.

End Fftabs.

(** ** The runtime functions on the strings of the examples

    The examples below run the program on concrete strings, with these
    definitions in the place of the Section variables.  [py_lower] and
    [py_upper] are [str.lower] and [str.upper] for a string whose code
    points are below U+0100 or are U+0130; code points outside that range
    are left as they are here, and no example contains one. *)

Local Open Scope N_scope.

Definition lower_char (c : char) : list char :=
  if (65 <=? c) && (c <=? 90) then [c + 32]
  else if (192 <=? c) && (c <=? 222) && negb (c =? 215) then [c + 32]
  else if c =? 304 then [105; 775]  (* U+0130 becomes i, U+0307 *)
  else [c].

Definition py_lower (s : pystr) : pystr := flat_map lower_char s.

Definition upper_char (c : char) : list char :=
  if (97 <=? c) && (c <=? 122) then [c - 32]
  else if (224 <=? c) && (c <=? 254) && negb (c =? 247) then [c - 32]
  else if c =? 223 then [83; 83]  (* U+00DF becomes SS *)
  else if c =? 181 then [924]
  else if c =? 255 then [376]
  else [c].

Definition py_upper (s : pystr) : pystr := flat_map upper_char s.

(** [s.partition(sep)]: the part before the first [sep], whether [sep]
    was found, and the part after it. *)
Fixpoint partition (sep : char) (s : pystr) : pystr * bool * pystr :=
  match s with
  | [] => ([], false, [])
  | c :: s' =>
      if c =? sep then ([], true, s')
      else let '(h, found, t) := partition sep s' in (c :: h, found, t)
  end.

(** [s.rpartition(sep)[2]]: the part after the last [sep], all of [s] when
    there is none. *)
Definition after_last (sep : char) (s : pystr) : pystr :=
  let '(h, found, _) := partition sep (rev s) in rev h.

(** The longest prefix of [s] without a character of [seps], and the rest. *)
Fixpoint split_at_any (seps : pystr) (s : pystr) : pystr * pystr :=
  match s with
  | [] => ([], [])
  | c :: s' =>
      if existsb (N.eqb c) seps then ([], s)
      else let '(h, t) := split_at_any seps s' in (c :: h, t)
  end.

Definition ascii_alpha (c : char) : bool :=
  ((65 <=? c) && (c <=? 90)) || ((97 <=? c) && (c <=? 122)).

Definition scheme_char (c : char) : bool :=
  ascii_alpha c || ((48 <=? c) && (c <=? 57))
  || (c =? 43) || (c =? 45) || (c =? 46).

Definition uses_params : list pystr :=
  map str ["" ; "ftp"; "hdl"; "prospero"; "http"; "imap"; "https"; "shttp";
           "rtsp"; "rtspu"; "sip"; "sips"; "mms"; "sftp"; "tel"]%string.

Fixpoint lstrip_c0_space (s : pystr) : pystr :=
  match s with
  | c :: s' => if c <=? 32 then lstrip_c0_space s' else s
  | [] => []
  end.

(** [_splitparams(url)[0]] *)
Definition splitparams_path (url : pystr) : pystr :=
  if existsb (N.eqb 47) url then
    let last_segment := after_last 47 url in
    let '(seg, found, _) := partition 59 last_segment in
    if found
    then firstn (length url - length last_segment)%nat url ++ seg
    else url
  else fst (fst (partition 59 url)).

(** [urlparse(url)] of urllib, read at [.hostname] and [.path], for a URL
    on which it does not raise. *)
Definition py_urlparse (url : pystr) : ParseResult :=
  let url := lstrip_c0_space url in
  let url := filter (fun c => negb ((c =? 9) || (c =? 13) || (c =? 10))) url in
  let '(head, colon, rest) := partition 58 url in
  let '(scheme, url) :=
    match head with
    | c :: _ =>
        if colon && ascii_alpha c && forallb scheme_char head
        then (py_lower head, rest) else ([], url)
    | [] => ([], url)
    end in
  let '(netloc, url) :=
    match url with
    | 47 :: 47 :: rest => split_at_any (str "/?#") rest
    | _ => ([], url)
    end in
  let url := fst (fst (partition 35 url)) in   (* '#' starts the fragment *)
  let url := fst (fst (partition 63 url)) in   (* '?' starts the query *)
  let url :=
    if existsb (str_eqb scheme) uses_params && existsb (N.eqb 59) url
    then splitparams_path url else url in
  let hostinfo := after_last 64 netloc in      (* after the last '@' *)
  let '(_, have_open_br, bracketed) := partition 91 hostinfo in
  let host :=
    if have_open_br then fst (fst (partition 93 bracketed))
    else fst (fst (partition 58 hostinfo)) in
  let host :=
    match host with
    | [] => None
    | _ =>
        let '(h, percent, zone) := partition 37 host in
        Some (py_lower h ++ (if percent then [37] else []) ++ zone)
    end in
  {| hostname := host; path := url |}.

Local Close Scope N_scope.

(** A profile folder for the examples: the snapshot of profile [a] has a
    payload that does not decompress, the snapshot of profile [b] decodes
    to [demo_document], and there is no other file. *)
Definition demo_document : json :=
  JDict [(str "windows", JList [
    JDict [(str "tabs", JList [
      JDict [(str "entries", JList [
        JDict [(str "url", JStr (str "https://mail.google.com/"));
               (str "title", JStr (str "Gmail - Inbox"))]])]])]])].

Definition demo_header : bytes := repeat Byte.x00 8.

Definition demo_open_rb (path : pystr) : result bytes :=
  if str_eqb path (str "a/sessionstore.jsonlz4") then Ok demo_header
  else if str_eqb path (str "b/sessionstore.jsonlz4")
  then Ok (demo_header ++ [Byte.x01])
  else Raise OSError.

Definition demo_decompress (data : bytes) : result bytes :=
  match data with
  | [] => Raise LZ4BlockError
  | _ => Ok data
  end.

Definition demo_json_loads (text : bytes) : result json := Ok demo_document.

(** The tabs and queries of the examples. *)
Definition script : pystr := str "fftabs.py".
Definition profile_a : pystr := str "a/sessionstore.jsonlz4".
Definition profile_b : pystr := str "b/sessionstore.jsonlz4".

Definition gmail_tab : record :=
  (str "Gmail - Inbox", str "https://mail.google.com/").

Definition github_tab : record := (str "GitHub", str "https://github.com/").

(** Twenty tabs of a mail site, at [https://mail.example/a] to [.../t]. *)
Definition twenty_tabs : list record :=
  map (fun n => (str "Mail", str "https://mail.example/" ++ [(97 + N.of_nat n)%N]))
      (seq 0 20).

(** The query [stra], U+00DF, [e], and a tab with that title and no URL. *)
Definition sharp_s_query : pystr := str "stra" ++ [223%N] ++ str "e".
Definition sharp_s_tab : record := (str "Stra" ++ [223%N] ++ str "e", []).

(** The two-character query U+0130, [s], and a tab whose title and URL
    begin a word with U+0130. *)
Definition dotted_I_query : pystr := [304%N] ++ str "s".
Definition istanbul_tab : record :=
  ([304%N] ++ str "stanbul",
   str "https://tr.wikipedia.org/wiki/" ++ [304%N] ++ str "stanbul").

(** A document whose only window holds an empty [dict] under ["tabs"]. *)
Definition empty_dict_document : json :=
  JDict [(str "windows", JList [JDict [(str "tabs", JDict [])]])].

(** A document whose only window has no ["tabs"] at all. *)
Definition no_tabs_document : json :=
  JDict [(str "windows", JList [JDict [(str "title", JStr (str "w"))]])].

(** ** Predicates used in the proofs *)

(** A match lies inside the region and ends at row [r] at the latest. *)
Definition inside (alo blo bhi r : nat) (m : Difflib.Match) : Prop :=
  let '(i, j, k) := m in
  alo <= i /\ i + k <= r /\ blo <= j /\ j + k <= bhi.

(** The lengths stored for the rows below [r] fit in the region. *)
Definition lengths_fit (alo blo bhi r : nat) (d : Difflib.j2len_t) : Prop :=
  forall j, d j <= r - alo /\ d j <= j + 1 - blo /\ (bhi <= j -> d j = 0).

(** [sub] occurs in [s] as a contiguous run of characters. *)
Definition occurs (sub s : pystr) : Prop :=
  exists pre post, s = pre ++ sub ++ post.

(** The call ends with an exception. *)
Definition raises {A : Type} (r : result A) : Prop := exists e, r = Raise e.

(** The exceptions of an index or iteration that fails. *)
Definition lookup_error (e : exn) : Prop :=
  e = TypeError \/ exists key, e = KeyError key.

(** [x[key]] raises: [x] has no such key, or is not a [dict]. *)
Definition lacks_field (x : json) (key : pystr) : Prop :=
  raises (getitem x key).

(** [for v in x[key]] runs over [l]. *)
Definition elements (x : json) (key : pystr) (l : list json) : Prop :=
  (v <- getitem x key ;; iter v) = Ok l.

(** [for v in x[key]] raises: [x[key]] raises or cannot be iterated. *)
Definition lacks_sequence (x : json) (key : pystr) : Prop :=
  raises (v <- getitem x key ;; iter v).

Definition entry_malformed (entry : json) : Prop :=
  lacks_field entry (str "title") \/ lacks_field entry (str "url").

Definition tab_malformed (t : json) : Prop :=
  lacks_sequence t (str "entries") \/
  exists entries, elements t (str "entries") entries /\
                  Exists entry_malformed entries.

Definition window_malformed (window : json) : Prop :=
  lacks_sequence window (str "tabs") \/
  exists tabs, elements window (str "tabs") tabs /\
               Exists tab_malformed tabs.

Definition document_malformed (data : json) : Prop :=
  lacks_sequence data (str "windows") \/
  exists windows, elements data (str "windows") windows /\
                  Exists window_malformed windows.

(** Both components of the tuple can be hashed. *)
Definition hashable_tab (t : tab) : Prop :=
  hashable (fst t) && hashable (snd t) = true.

(** [t] is equal to a member of the set. *)
Definition in_set (t : tab) (tabs : list tab) : Prop :=
  existsb (tab_eqb t) tabs = true.

(** The order of two elements by their sort keys. *)
Definition key_le {A : Type} (key : A -> Q) (x y : A) : Prop :=
  (key x <= key y)%Q.

(** A region of the queue has its bounds in order. *)
Definition region_ok (r : Difflib.region) : Prop :=
  let '(alo, ahi, blo, bhi) := r in alo <= ahi /\ blo <= bhi.

(** The turns of the loop that the regions of the queue can still take. *)
Definition turns (queue : list Difflib.region) : nat :=
  fold_right (fun r acc => let '(alo, ahi, _, _) := r in
                           2 * (ahi - alo) + 1 + acc) 0 queue.

(** The elements of [a], and of [b], that the regions of the queue hold. *)
Definition room_a (queue : list Difflib.region) : nat :=
  fold_right (fun r acc => let '(alo, ahi, _, _) := r in ahi - alo + acc)
    0 queue.

Definition room_b (queue : list Difflib.region) : nat :=
  fold_right (fun r acc => let '(_, _, blo, bhi) := r in bhi - blo + acc)
    0 queue.

(** ** Discovery of the session files, and the whole program *)

Module Discovery.

Section Discovery.

(** [os.name] *)
Variable os_name : pystr.

(** [os.getenv], [None] for a variable that is not set. *)
Variable getenv : pystr -> option pystr.

(** [os.path.join(a, *p)] on strings. *)
Variable path_join : pystr -> list pystr -> pystr.

(** [os.listdir], which raises when the folder cannot be listed. *)
Variable listdir : pystr -> result (list pystr).

(** [os.path.isfile] *)
Variable isfile : pystr -> bool.

Definition FILENAME : pystr := str "sessionstore.jsonlz4".
Definition FALLBACK : pystr := str "sessionstore-backups/recovery.jsonlz4".

(** The body of the loop over the profiles. *)
Definition add_profile (profile_folder : pystr) (files : list pystr)
    (profile : pystr) : list pystr :=
  let primary := path_join profile_folder [profile; FILENAME] in
  let files := if isfile primary then files ++ [primary] else files in
  let fallback := path_join profile_folder [profile; FALLBACK] in
  if isfile fallback then files ++ [fallback] else files.

(** Returns a list of discovered sessionstore files. Windows only.
    [os.path.join] raises [TypeError] on the [None] that [os.getenv]
    returns for an unset variable. *)
Definition session_files : result (list pystr) :=
  if str_eqb os_name (str "nt") then
    appdata <- match getenv (str "APPDATA") with
               | Some v => Ok v
               | None => Raise TypeError
               end ;;
    let profile_folder :=
      path_join appdata [str "Mozilla"; str "Firefox"; str "Profiles"] in
    profiles <- listdir profile_folder ;;
    Ok (fold_left (add_profile profile_folder) profiles [])
  else Ok [].

Variable lower : pystr -> pystr.
Variable urlparse : pystr -> ParseResult.
Variable open_rb : pystr -> result bytes.
Variable lz4_block_decompress : bytes -> result bytes.
Variable json_loads : bytes -> result json.

(** The main block on the files that [session_files()] returns. *)
Definition program (argv : list pystr) : result (list (nat * tab)) :=
  files <- session_files ;;
  Fftabs.main lower urlparse open_rb lz4_block_decompress json_loads argv files.

End Discovery.

End Discovery.

(** A Windows profile folder for the examples: profile [p1] has both
    snapshot files, profile [p2] only the backup. *)
Definition demo_path_join (a : pystr) (p : list pystr) : pystr :=
  a ++ concat (map (fun x => 92%N :: x) p).

Definition demo_appdata : pystr := str "C:\Users\u\AppData\Roaming".

Definition demo_getenv (name : pystr) : option pystr :=
  if str_eqb name (str "APPDATA") then Some demo_appdata else None.

Definition demo_profiles : pystr :=
  demo_path_join demo_appdata [str "Mozilla"; str "Firefox"; str "Profiles"].

Definition demo_listdir (folder : pystr) : result (list pystr) :=
  if str_eqb folder demo_profiles then Ok [str "p1"; str "p2"]
  else Raise OSError.

Definition demo_isfile (p : pystr) : bool :=
  str_eqb p (demo_path_join demo_profiles [str "p1"; Discovery.FILENAME])
  || str_eqb p (demo_path_join demo_profiles [str "p1"; Discovery.FALLBACK])
  || str_eqb p (demo_path_join demo_profiles [str "p2"; Discovery.FALLBACK]).

(** ** What a well-formed document yields *)

(** The tuple that [tab_info] appends for [entry]. *)
Definition entry_yields (entry : json) (t : tab) : Prop :=
  getitem entry (str "title") = Ok (fst t) /\
  getitem entry (str "url") = Ok (snd t).

(** The tuples of the entries of a tab, in order. *)
Definition tab_yields (t : json) (l : list tab) : Prop :=
  exists entries,
    elements t (str "entries") entries /\ Forall2 entry_yields entries l.

(** The tuples of the tabs of a window, in order. *)
Definition window_yields (window : json) (l : list tab) : Prop :=
  exists tabs ls,
    elements window (str "tabs") tabs /\ Forall2 tab_yields tabs ls /\
    l = concat ls.

(** The tuples of the windows of a document, in order. *)
Definition document_yields (data : json) (l : list tab) : Prop :=
  exists windows ls,
    elements data (str "windows") windows /\
    Forall2 window_yields windows ls /\ l = concat ls.

(** A document with two windows; the second tab of the first window has
    two history entries, and the second window has a key more. *)
Definition entry_of (title url : string) : json :=
  JDict [(str "url", JStr (str url)); (str "title", JStr (str title))].

Definition two_window_document : json :=
  JDict [(str "version", JList [JStr (str "sessionrestore"); JNum 1]);
         (str "windows", JList [
           JDict [(str "tabs", JList [
             JDict [(str "entries", JList [entry_of "A" "https://a.example/"])];
             JDict [(str "entries", JList [entry_of "B" "https://b.example/";
                                           entry_of "C" "https://c.example/"]);
                    (str "index", JNum 2)]])];
           JDict [(str "tabs", JList [
             JDict [(str "entries", JList [entry_of "A" "https://a.example/"])]]);
                  (str "selected", JNum 1)]])].

Definition tab_of (title url : string) : tab := (JStr (str title), JStr (str url)).

(** A document with one entry whose title is a JSON array, and a decoder
    that returns it. *)
Definition list_title_document : json :=
  JDict [(str "windows", JList [
    JDict [(str "tabs", JList [
      JDict [(str "entries", JList [
        JDict [(str "url", JStr (str "about:blank"));
               (str "title", JList [JStr (str "a")])]])]])]])].

Definition demo_json_loads_list (text : bytes) : result json :=
  Ok list_title_document.

(** A tab whose title is a number. *)
Definition number_title_tab : tab := (JNum 404, JStr (str "https://a.example/")).

(** No two members of the set are equal: a later member differs from every
    earlier one. *)
Definition distinct (tabs : list tab) : Prop :=
  ForallOrdPairs (fun u t => tab_eqb t u = false) tabs.

(** * Properties of the sequence matcher *)

Module DifflibFacts.
Import Difflib.

Section Bounds.

Variables a b : pystr.

Lemma lengths_fit_empty alo blo bhi r : lengths_fit alo blo bhi r j2len_empty.
Proof. intros j. unfold j2len_empty. repeat split; lia. Qed.

Lemma inside_later alo blo bhi r r' m :
  r <= r' -> inside alo blo bhi r m -> inside alo blo bhi r' m.
Proof. destruct m as [[i j] k]. unfold inside. lia. Qed.

Lemma scan_row_inside alo blo bhi i j2len js :
  alo <= i ->
  lengths_fit alo blo bhi i j2len ->
  forall newj2len best,
    lengths_fit alo blo bhi (S i) newj2len ->
    inside alo blo bhi (S i) best ->
    lengths_fit alo blo bhi (S i)
      (fst (scan_row i blo bhi j2len js newj2len best)) /\
    inside alo blo bhi (S i)
      (snd (scan_row i blo bhi j2len js newj2len best)).
Proof.
  intros Hi Hprev.
  induction js as [|j js IH]; intros newj2len best Hnew Hbest; simpl.
  - split; assumption.
  - destruct (j <? blo) eqn:Hlo; [apply IH; assumption|].
    destruct (bhi <=? j) eqn:Hhi; [split; assumption|].
    apply Nat.ltb_ge in Hlo. apply Nat.leb_gt in Hhi.
    assert (Hk : j2lenget_pred j2len j + 1 <= S i - alo /\
                 j2lenget_pred j2len j + 1 <= j + 1 - blo).
    { destruct j as [|j']; cbn [j2lenget_pred].
      - lia.
      - destruct (Hprev j') as (H1 & H2 & _). lia. }
    destruct Hk as [Hk1 Hk2].
    apply IH.
    + intros x. unfold j2len_set.
      destruct (x =? j) eqn:Hx.
      * apply Nat.eqb_eq in Hx. subst x. repeat split; lia.
      * apply Hnew.
    + destruct (size_of best <? j2lenget_pred j2len j + 1); [|assumption].
      unfold inside. lia.
Qed.

Lemma scan_rows_inside alo blo bhi n :
  forall i j2len best,
    alo <= i ->
    lengths_fit alo blo bhi i j2len ->
    inside alo blo bhi i best ->
    inside alo blo bhi (i + n) (scan_rows a b (seq i n) blo bhi j2len best).
Proof.
  induction n as [|n IH]; intros i j2len best Hi Hd Hbest; simpl.
  - rewrite Nat.add_0_r. assumption.
  - destruct (scan_row i blo bhi j2len (b2j b (nth i a 0%N)) j2len_empty best)
      as [newj2len best'] eqn:Hrow.
    destruct (scan_row_inside alo blo bhi i j2len (b2j b (nth i a 0%N))
                Hi Hd j2len_empty best
                (lengths_fit_empty alo blo bhi (S i))
                (inside_later alo blo bhi i (S i) best (Nat.le_succ_diag_r i) Hbest))
      as [Hd' Hbest'].
    rewrite Hrow in Hd', Hbest'. simpl in Hd', Hbest'.
    replace (i + S n) with (S i + n) by lia.
    apply IH; [lia | assumption | assumption].
Qed.

Lemma extend_left_inside junk alo blo bhi r n :
  forall best,
    inside alo blo bhi r best ->
    inside alo blo bhi r (extend_left a b junk n alo blo best).
Proof.
  induction n as [|n IH]; intros [[i j] k] H; cbn [extend_left]; [assumption|].
  match goal with |- context [if ?c then _ else _] => destruct c eqn:E end;
    [|assumption].
  repeat (apply andb_true_iff in E; destruct E as [E ?]).
  apply Nat.ltb_lt in E.
  match goal with H2 : (blo <? j) = true |- _ => apply Nat.ltb_lt in H2 end.
  apply IH. unfold inside in *. lia.
Qed.

Lemma extend_right_inside junk alo blo bhi ahi n :
  forall best,
    inside alo blo bhi ahi best ->
    inside alo blo bhi ahi (extend_right a b junk n ahi bhi best).
Proof.
  induction n as [|n IH]; intros [[i j] k] H; cbn [extend_right]; [assumption|].
  match goal with |- context [if ?c then _ else _] => destruct c eqn:E end;
    [|assumption].
  repeat (apply andb_true_iff in E; destruct E as [E ?]).
  apply Nat.ltb_lt in E.
  match goal with H2 : (j + k <? bhi) = true |- _ => apply Nat.ltb_lt in H2 end.
  apply IH. unfold inside in *. lia.
Qed.

(** The match that [find_longest_match] returns lies in the region. *)
Lemma find_longest_match_inside alo ahi blo bhi :
  alo <= ahi -> blo <= bhi ->
  inside alo blo bhi ahi (find_longest_match a b alo ahi blo bhi).
Proof.
  intros Ha Hb. unfold find_longest_match.
  apply extend_right_inside, extend_left_inside,
        extend_right_inside, extend_left_inside.
  replace ahi with (alo + (ahi - alo)) at 1 by lia.
  apply scan_rows_inside.
  - lia.
  - apply lengths_fit_empty.
  - unfold inside. lia.
Qed.

Lemma sum_sizes_snoc blocks x :
  sum_sizes (blocks ++ [x]) = sum_sizes blocks + size_of x.
Proof.
  unfold sum_sizes.
  induction blocks as [|m blocks IH]; simpl; lia.
Qed.

(** With more fuel than the queue has turns left, the loop returns, and
    the blocks it adds fit in the regions of the queue. *)
Lemma matching_loop_spec fuel :
  forall queue acc,
    Forall region_ok queue ->
    turns queue < fuel ->
    exists blocks,
      matching_loop a b fuel queue acc = Some blocks /\
      sum_sizes blocks <= sum_sizes acc + room_a queue /\
      sum_sizes blocks <= sum_sizes acc + room_b queue.
Proof.
  induction fuel as [|fuel IH]; intros queue acc Hok Hfuel; [lia|].
  destruct queue as [|[[[alo ahi] blo] bhi] queue]; simpl.
  - exists acc. simpl. repeat split; lia.
  - inversion Hok as [|r q Hr Hq]; subst.
    destruct Hr as [Ha Hb].
    pose proof (find_longest_match_inside alo ahi blo bhi Ha Hb) as Hin.
    destruct (find_longest_match a b alo ahi blo bhi) as [[i j] k].
    unfold inside in Hin. simpl in Hfuel.
    destruct (k =? 0) eqn:Hk.
    + destruct (IH queue acc Hq ltac:(lia)) as (blocks & E & H1 & H2).
      exists blocks. simpl. repeat split; [assumption | lia | lia].
    + apply Nat.eqb_neq in Hk.
      destruct ((alo <? i) && (blo <? j)); destruct ((i + k <? ahi) && (j + k <? bhi));
      match goal with
      | |- context [matching_loop a b fuel ?q ?acc'] =>
          destruct (IH q acc') as (blocks & E & H1 & H2);
          [ repeat (constructor; [unfold region_ok; lia|]); assumption
          | simpl; lia
          | exists blocks; rewrite sum_sizes_snoc in H1, H2;
            simpl in *; unfold size_of in *; simpl in *;
            repeat split; [assumption | lia | lia] ]
      end.
Qed.

(** [get_matching_blocks] does not run out of fuel. *)
Lemma matching_loop_returns :
  exists blocks,
    matching_loop a b (2 * length a + 2) [(0, length a, 0, length b)] []
    = Some blocks.
Proof.
  destruct (matching_loop_spec (2 * length a + 2)
              [(0, length a, 0, length b)] []) as (blocks & E & _).
  - repeat constructor; lia.
  - simpl. lia.
  - exists blocks. exact E.
Qed.

(** The matched elements are elements of [a] and elements of [b]. *)
Lemma matches_le : matches a b <= length a /\ matches a b <= length b.
Proof.
  unfold matches, get_matching_blocks.
  destruct (matching_loop_spec (2 * length a + 2)
              [(0, length a, 0, length b)] []) as (blocks & E & H1 & H2).
  - repeat constructor; lia.
  - simpl. lia.
  - rewrite E. simpl in H1, H2. lia.
Qed.

End Bounds.

Lemma calculate_ratio_range m n :
  2 * m <= n -> (0 <= calculate_ratio m n <= 1)%Q.
Proof.
  intros H. unfold calculate_ratio.
  destruct (n =? 0) eqn:Hn.
  - split; discriminate.
  - apply Nat.eqb_neq in Hn.
    assert (Hpos : (0 < inject_Z (Z.of_nat n))%Q).
    { rewrite <- (Zlt_Qlt 0). lia. }
    split.
    + apply Qle_shift_div_l; [exact Hpos|].
      rewrite Qmult_0_l.
      change 2%Q with (inject_Z 2). rewrite <- inject_Z_mult.
      rewrite <- (Zle_Qle 0). lia.
    + apply Qle_shift_div_r; [exact Hpos|].
      rewrite Qmult_1_l.
      change 2%Q with (inject_Z 2). rewrite <- inject_Z_mult.
      rewrite <- Zle_Qle. lia.
Qed.

(** [ratio()] is a number between 0 and 1. *)
Lemma ratio_range a b : (0 <= ratio a b <= 1)%Q.
Proof.
  unfold ratio. apply calculate_ratio_range.
  pose proof (matches_le a b). lia.
Qed.

(** Nothing of a non-empty [b] matches an empty [a]. *)
Lemma ratio_empty_query c s : (ratio [] (c :: s) == 0)%Q.
Proof.
  unfold ratio.
  replace (matches [] (c :: s)) with 0 by reflexivity.
  unfold calculate_ratio. cbn [length Nat.add Nat.eqb Z.of_nat].
  unfold Qdiv. rewrite Qmult_0_r, Qmult_0_l. reflexivity.
Qed.

End DifflibFacts.

(** * Properties of the scorer *)

Lemma startswith_spec s sub :
  startswith s sub = true <-> exists post, s = sub ++ post.
Proof.
  revert s. induction sub as [|c sub IH]; intros s; simpl.
  - split; [intros _; exists s; reflexivity | reflexivity].
  - destruct s as [|d s].
    + split; [discriminate | intros [post H]; discriminate].
    + rewrite andb_true_iff, N.eqb_eq, IH. split.
      * intros [-> [post ->]]. exists post. reflexivity.
      * intros [post H]. injection H as -> ->. split; [reflexivity|].
        exists post. reflexivity.
Qed.

(** [sub in s] is true exactly when [sub] occurs in [s]. *)
Lemma contains_spec s sub : contains s sub = true <-> occurs sub s.
Proof.
  unfold occurs. induction s as [|d s IH]; simpl.
  - rewrite orb_false_r, startswith_spec. split.
    + intros [post H]. exists [], post. exact H.
    + intros (pre & post & H). destruct pre; [|discriminate].
      exists post. exact H.
  - rewrite orb_true_iff, startswith_spec, IH. split.
    + intros [[post H] | (pre & post & H)].
      * exists [], post. exact H.
      * exists (d :: pre), post. simpl. rewrite H. reflexivity.
    + intros (pre & post & H). destruct pre as [|d' pre].
      * left. exists post. exact H.
      * right. injection H as _ H. exists pre, post. exact H.
Qed.

Lemma Qltb_lt x y : Qltb x y = true <-> (x < y)%Q.
Proof.
  unfold Qltb. rewrite negb_true_iff. split.
  - intros H. apply Qnot_le_lt. intros Hle.
    apply Qle_bool_iff in Hle. congruence.
  - intros H. destruct (Qle_bool y x) eqn:E; [|reflexivity].
    apply Qle_bool_iff in E. apply Qle_not_lt in E. contradiction.
Qed.

Lemma Qltb_ge x y : Qltb x y = false <-> (y <= x)%Q.
Proof.
  unfold Qltb. rewrite negb_false_iff. apply Qle_bool_iff.
Qed.

Section Scorer.

Variable lower : pystr -> pystr.
Variable urlparse : pystr -> ParseResult.

Local Abbreviation diff_value := (Fftabs.diff_value urlparse).
Local Abbreviation value := (Fftabs.value lower urlparse).

(** One turn of the loop of [diff_value] adds a ratio, or nothing. *)
Lemma add_ratio_range query (total bound : Q) (string : option pystr) :
  (0 <= total <= bound)%Q ->
  (0 <= Fftabs.add_ratio query total string <= bound + 1)%Q.
Proof.
  intros H. unfold Fftabs.add_ratio. destruct string as [[|c s]|]; try lra.
  pose proof (DifflibFacts.ratio_range query (c :: s)). lra.
Qed.

(** The sum of the ratios lies between 0 and 4. *)
Lemma diff_value_range query title url :
  (0 <= diff_value query title url <= 4)%Q.
Proof.
  unfold Fftabs.diff_value. cbn [fold_left].
  assert (H0 : (0 <= 0 <= 0)%Q) by lra.
  pose proof (add_ratio_range query _ _ (Some title) H0) as H1.
  pose proof (add_ratio_range query _ _ (Some url) H1) as H2.
  pose proof (add_ratio_range query _ _ (hostname (urlparse url)) H2) as H3.
  pose proof (add_ratio_range query _ _ (Some (path (urlparse url))) H3) as H4.
  destruct H4 as [Hlo Hhi]. split; [exact Hlo|].
  eapply Qle_trans; [exact Hhi | discriminate].
Qed.

Lemma add_ratio_empty_query (total : Q) (string : option pystr) :
  (total == 0)%Q -> (Fftabs.add_ratio [] total string == 0)%Q.
Proof.
  intros H. unfold Fftabs.add_ratio. destruct string as [[|c s]|]; try exact H.
  rewrite H, DifflibFacts.ratio_empty_query. reflexivity.
Qed.

(** An empty query matches nothing. *)
Lemma diff_value_empty_query title url : (diff_value [] title url == 0)%Q.
Proof.
  unfold Fftabs.diff_value. cbn [fold_left].
  repeat apply add_ratio_empty_query. reflexivity.
Qed.

(** The score is the exact-match bonus plus the sum of the ratios. *)
Lemma value_unfold query title url :
  let q := lower query in
  let t := lower title in
  let u := lower url in
  (value query (title, url) ==
   (if (Fftabs.MIN_LENGTH <=? length q) && contains t q
    then Fftabs.EXACT_VALUE else 0)
   + (if (Fftabs.MIN_LENGTH <=? length q) && contains u q
      then Fftabs.EXACT_VALUE else 0)
   + diff_value q t u)%Q.
Proof.
  cbv zeta. unfold Fftabs.value, Fftabs.RATIO_COEFF.
  destruct (Fftabs.MIN_LENGTH <=? length (lower query));
    destruct (contains (lower title) (lower query));
    destruct (contains (lower url) (lower query)); simpl andb; cbv iota; ring.
Qed.

End Scorer.

(** * Properties of [sorted] and of the slice *)

Section Sorting.

Variable A : Type.
Variable key : A -> Q.

Local Abbreviation key_le := (key_le key).

Lemma insert_by_perm x l : Permutation (insert_by key x l) (x :: l).
Proof.
  induction l as [|y l IH]; simpl.
  - apply Permutation_refl.
  - destruct (Qltb (key y) (key x)).
    + eapply perm_trans; [apply perm_skip, IH | apply perm_swap].
    + apply Permutation_refl.
Qed.

Lemma sorted_perm l : Permutation (sorted key l) l.
Proof.
  induction l as [|x l IH]; simpl.
  - apply perm_nil.
  - eapply perm_trans; [apply insert_by_perm | apply perm_skip, IH].
Qed.

Lemma sorted_In l x : In x (sorted key l) <-> In x l.
Proof.
  split; apply Permutation_in; [|apply Permutation_sym]; apply sorted_perm.
Qed.

Lemma sorted_length l : length (sorted key l) = length l.
Proof. apply Permutation_length, sorted_perm. Qed.

Lemma insert_by_Sorted x l :
  Sorted key_le l -> Sorted key_le (insert_by key x l).
Proof.
  induction l as [|y l IH]; intros Hs; simpl.
  - repeat constructor.
  - destruct (Qltb (key y) (key x)) eqn:E.
    + apply Qltb_lt in E. inversion Hs as [|y' l' Hl Hhd]; subst.
      constructor; [apply IH; exact Hl|].
      destruct l as [|z l]; simpl.
      * constructor. apply Qlt_le_weak, E.
      * destruct (Qltb (key z) (key x)).
        -- constructor. inversion Hhd; assumption.
        -- constructor. apply Qlt_le_weak, E.
    + apply Qltb_ge in E. constructor; [exact Hs|].
      constructor. exact E.
Qed.

(** The result of [sorted] is in non-decreasing order of the keys. *)
Lemma sorted_Sorted l : Sorted key_le (sorted key l).
Proof.
  induction l as [|x l IH]; simpl.
  - constructor.
  - apply insert_by_Sorted, IH.
Qed.

(** The sort is stable: the elements with a given key [k] come out in
    the order in which they went in. *)
Lemma insert_by_stable (k : Q) x l :
  filter (fun y => Qeq_bool (key y) k) (insert_by key x l)
  = filter (fun y => Qeq_bool (key y) k) (x :: l).
Proof.
  induction l as [|y l IH]; [reflexivity|].
  cbn [insert_by]. destruct (Qltb (key y) (key x)) eqn:E; [|reflexivity].
  cbn [filter] in *. rewrite IH.
  destruct (Qeq_bool (key x) k) eqn:Ex; [|reflexivity].
  destruct (Qeq_bool (key y) k) eqn:Ey; [|reflexivity].
  apply Qltb_lt in E. apply Qeq_bool_iff in Ex, Ey.
  rewrite Ex, Ey in E. exfalso. revert E. apply Qlt_irrefl.
Qed.

Lemma sorted_stable (k : Q) l :
  filter (fun y => Qeq_bool (key y) k) (sorted key l)
  = filter (fun y => Qeq_bool (key y) k) l.
Proof.
  induction l as [|x l IH]; [reflexivity|].
  cbn [sorted fold_right]. rewrite insert_by_stable.
  cbn [filter]. unfold sorted in IH. rewrite IH. reflexivity.
Qed.

Lemma Sorted_firstn (R : A -> A -> Prop) n :
  forall l, Sorted R l -> Sorted R (firstn n l).
Proof.
  induction n as [|n IH]; intros l Hs; simpl; [constructor|].
  destruct l as [|x l]; [constructor|].
  inversion Hs as [|x' l' Hl Hhd]; subst.
  constructor; [apply IH, Hl|].
  destruct l as [|y l]; [destruct n; constructor|].
  destruct n; simpl; constructor. inversion Hhd; assumption.
Qed.

Lemma Sorted_adjacent (R : A -> A -> Prop) l :
  Sorted R l ->
  forall i x y,
    nth_error l i = Some x -> nth_error l (S i) = Some y -> R x y.
Proof.
  induction 1 as [|z l Hl IH Hhd]; intros i x y Hx Hy.
  - destruct i; discriminate.
  - destruct i as [|i]; simpl in Hx, Hy.
    + injection Hx as <-. destruct l as [|w l]; [discriminate|].
      injection Hy as <-. inversion Hhd; assumption.
    + eapply IH; eassumption.
Qed.

End Sorting.

(** * The claims about the scorer *)

Ltac case_tests :=
  repeat match goal with
    | |- context [(?x <=? ?y)%N] => destruct (N.leb_spec x y)
    | |- context [(?x =? ?y)%N] => destruct (N.eqb_spec x y)
    end.

Lemma bonus_nonneg (c : bool) : (0 <= (if c then Fftabs.EXACT_VALUE else 0))%Q.
Proof. destruct c; discriminate. Qed.


Lemma value_short_le_4 (lower : pystr -> pystr)
    (urlparse : pystr -> ParseResult) (query : pystr) (tab : record) :
  length (lower query) < 3 ->
  (Fftabs.value lower urlparse query tab <= 4)%Q.
Proof.
  destruct tab as [title url]. intros Hlen.
  pose proof (value_unfold lower urlparse query title url) as E.
  cbv zeta in E. rewrite E.
  replace (Fftabs.MIN_LENGTH <=? length (lower query)) with false.
  - simpl andb. cbv iota.
    pose proof (diff_value_range urlparse (lower query) (lower title) (lower url)).
    lra.
  - symmetry. apply Nat.leb_gt. exact Hlen.
Qed.

(** Lower-casing never shortens a string. *)
Lemma py_lower_length_le (s : pystr) : length s <= length (py_lower s).
Proof.
  induction s as [|c s IH]; [apply Nat.le_refl|].
  change (py_lower (c :: s)) with (lower_char c ++ py_lower s).
  rewrite length_app. simpl length.
  assert (1 <= length (lower_char c)).
  { unfold lower_char. case_tests; simpl; lia. }
  lia.
Qed.

(** Lower-casing keeps the length of a string without U+0130. *)
Lemma py_lower_length (s : pystr) :
  Forall (fun c => c <> 304%N) s -> length (py_lower s) = length s.
Proof.
  induction 1 as [|c s Hc Hs IH]; [reflexivity|].
  change (py_lower (c :: s)) with (lower_char c ++ py_lower s).
  rewrite length_app, IH. simpl length.
  assert (length (lower_char c) = 1).
  { unfold lower_char. case_tests; simpl; try reflexivity; contradiction. }
  lia.
Qed.


(** The score of the query [mail] on the Gmail tab. *)
Lemma value_mail_example :
  (Fftabs.value py_lower py_urlparse (str "mail")
     (str "Gmail - Inbox", str "https://mail.google.com/") == 16228 # 2261)%Q.
Proof. vm_compute. reflexivity. Qed.


Lemma lower_upper_char (c : char) :
  (c < 128)%N -> py_lower (upper_char c) = lower_char c.
Proof.
  intros Hc. unfold upper_char. case_tests; simpl; try lia;
    unfold lower_char; case_tests; simpl; try lia;
    repeat f_equal; lia.
Qed.

Lemma py_lower_app s t : py_lower (s ++ t) = py_lower s ++ py_lower t.
Proof. unfold py_lower. apply flat_map_app. Qed.

(** Upper-casing an ASCII string does not change its lower-cased form. *)
Lemma py_lower_upper_ascii (s : pystr) :
  Forall (fun c => (c < 128)%N) s -> py_lower (py_upper s) = py_lower s.
Proof.
  induction 1 as [|c s Hc Hs IH]; [reflexivity|].
  change (py_upper (c :: s)) with (upper_char c ++ py_upper s).
  rewrite py_lower_app, IH, lower_upper_char by exact Hc. reflexivity.
Qed.

(** C9, amended.  The score reads the query through [lower] only: two
    queries with the same lower-cased form have the same score on every
    record.  The upper-cased query is such a re-casing when the query is
    ASCII. *)
Theorem value_recasing :
  (forall (lower : pystr -> pystr) (urlparse : pystr -> ParseResult)
          (query query' : pystr) (tab : record),
     lower query' = lower query ->
     Fftabs.value lower urlparse query' tab
     = Fftabs.value lower urlparse query tab) /\
  (forall (urlparse : pystr -> ParseResult) (query : pystr) (tab : record),
     Forall (fun c => (c < 128)%N) query ->
     Fftabs.value py_lower urlparse (py_upper query) tab
     = Fftabs.value py_lower urlparse query tab).
Proof.
  assert (H : forall lower urlparse query query' tab,
             lower query' = lower query ->
             Fftabs.value lower urlparse query' tab
             = Fftabs.value lower urlparse query tab).
  { intros lower urlparse query query' [title url] E.
    unfold Fftabs.value. rewrite E. reflexivity. }
  split; [exact H|].
  intros urlparse query tab Hascii.
  apply H, py_lower_upper_ascii, Hascii.
Qed.

(** * The claims about the ranker *)

Section Ranker.

Variable lower : pystr -> pystr.
Variable urlparse : pystr -> ParseResult.

Local Abbreviation value := (Fftabs.value lower urlparse).
Local Abbreviation suggest_tabs := (Fftabs.suggest_tabs lower urlparse).

(** The records that pass the filter, in the order of [tabs]. *)
Local Abbreviation kept tabs query :=
  (filter (fun tab => Qltb Fftabs.THRESHOLD (value query tab)) tabs).

Lemma kept_In tabs query r :
  In r (kept tabs query) <-> In r tabs /\ (3 # 2 < value query r)%Q.
Proof. rewrite filter_In, Qltb_lt. reflexivity. Qed.

Lemma In_firstn (A : Type) n (l : list A) x : In x (firstn n l) -> In x l.
Proof.
  revert l. induction n as [|n IH]; intros [|y l]; simpl; try tauto.
  intros [H|H]; [left; exact H | right; apply IH, H].
Qed.




End Ranker.

(** * The claims about the extractor *)

Lemma result_cases (A : Type) (r : result A) : (exists v, r = Ok v) \/ raises r.
Proof. destruct r as [v|e]; [left; exists v | right; exists e]; reflexivity. Qed.

Lemma getitem_error x key e : getitem x key = Raise e -> lookup_error e.
Proof.
  unfold getitem, lookup_error. destruct x; try (intros [= <-]; left; reflexivity).
  destruct (dict_get items key); [discriminate|].
  intros [= <-]. right. exists key. reflexivity.
Qed.

Lemma iter_error x e : iter x = Raise e -> lookup_error e.
Proof.
  unfold iter, lookup_error.
  destruct x; intros H; try discriminate; injection H as <-; left; reflexivity.
Qed.

Lemma sequence_error x key e :
  (v <- getitem x key ;; iter v) = Raise e -> lookup_error e.
Proof.
  destruct (getitem x key) as [v|e'] eqn:E; simpl.
  - apply iter_error.
  - intros [= <-]. eapply getitem_error, E.
Qed.

Section Loops.

Variables A T : Type.
Variable body : T -> A -> result T.
Variable bad : A -> Prop.
Variable P : exn -> Prop.

Hypothesis body_bad : forall acc x, bad x -> raises (body acc x).
Hypothesis body_error : forall acc x e, body acc x = Raise e -> P e /\ bad x.

(** A loop raises exactly when its body raises on some element. *)
Lemma for_each_raises l :
  forall acc, Exists bad l -> exists e, for_each l acc body = Raise e /\ P e.
Proof.
  induction l as [|x l IH]; intros acc H; [inversion H|].
  simpl. destruct (body acc x) as [acc'|e] eqn:E; simpl.
  - apply IH. inversion H as [? ? Hx|]; subst; [|assumption].
    destruct (body_bad acc x Hx) as [e' He']. congruence.
  - exists e. split; [reflexivity|]. eapply body_error, E.
Qed.

Lemma for_each_error l :
  forall acc e, for_each l acc body = Raise e -> P e /\ Exists bad l.
Proof.
  induction l as [|x l IH]; intros acc e H; [discriminate|].
  simpl in H. destruct (body acc x) as [acc'|e'] eqn:E; simpl in H.
  - destruct (IH acc' e H) as [HP Hl]. split; [exact HP|].
    apply Exists_cons_tl, Hl.
  - injection H as <-. destruct (body_error acc x e' E) as [HP Hx].
    split; [exact HP|]. apply Exists_cons_hd, Hx.
Qed.

End Loops.

Section Extractor.

Local Abbreviation entry_body :=
  (fun (tabs : list tab) (entry : json) =>
     title <- getitem entry (str "title") ;;
     url <- getitem entry (str "url") ;;
     Ok (tabs ++ [(title, url)])).

Local Abbreviation tab_body :=
  (fun (tabs : list tab) (t : json) =>
     entries <- getitem t (str "entries") ;;
     entries <- iter entries ;;
     for_each entries tabs entry_body).

Local Abbreviation window_body :=
  (fun (tabs : list tab) (window : json) =>
     window_tabs <- getitem window (str "tabs") ;;
     window_tabs <- iter window_tabs ;;
     for_each window_tabs tabs tab_body).

Lemma entry_bad tabs entry : entry_malformed entry -> raises (entry_body tabs entry).
Proof.
  intros [[e H]|[e H]]; cbv beta.
  - rewrite H. exists e. reflexivity.
  - rewrite H. destruct (getitem entry (str "title")); eexists; reflexivity.
Qed.

Lemma entry_error tabs entry e :
  entry_body tabs entry = Raise e -> lookup_error e /\ entry_malformed entry.
Proof.
  cbv beta. unfold entry_malformed, lacks_field, raises.
  destruct (getitem entry (str "title")) as [title|e1] eqn:E1; simpl.
  - destruct (getitem entry (str "url")) as [url|e2] eqn:E2; simpl.
    + discriminate.
    + intros [= <-]. split; [eapply getitem_error, E2|].
      right. exists e2. reflexivity.
  - intros [= <-]. split; [eapply getitem_error, E1|].
    left. exists e1. reflexivity.
Qed.

(** A sequence under [key] followed by a loop over it. *)
Lemma nested_bad (x : json) (key : pystr) (tabs : list tab)
    (body : list tab -> json -> result (list tab)) (bad : json -> Prop) :
  (forall acc y, bad y -> raises (body acc y)) ->
  (forall acc y e, body acc y = Raise e -> lookup_error e /\ bad y) ->
  (lacks_sequence x key \/
   exists l, elements x key l /\ Exists bad l) ->
  raises (v <- getitem x key ;; l <- iter v ;; for_each l tabs body).
Proof.
  intros Hbad Herr. unfold lacks_sequence, elements, raises.
  destruct (getitem x key) as [v|e] eqn:E; simpl;
    [|intros _; exists e; reflexivity].
  destruct (iter v) as [l|e] eqn:El; simpl;
    [|intros _; exists e; reflexivity].
  intros [[e H]|(l' & H & Hex)]; [discriminate|].
  injection H as <-.
  destruct (for_each_raises _ _ body bad lookup_error Hbad Herr l tabs Hex)
    as (e & He & _).
  exists e. exact He.
Qed.

Lemma nested_error (x : json) (key : pystr) (tabs : list tab)
    (body : list tab -> json -> result (list tab)) (bad : json -> Prop) e :
  (forall acc y e, body acc y = Raise e -> lookup_error e /\ bad y) ->
  (v <- getitem x key ;; l <- iter v ;; for_each l tabs body) = Raise e ->
  lookup_error e /\
  (lacks_sequence x key \/ exists l, elements x key l /\ Exists bad l).
Proof.
  intros Herr. unfold lacks_sequence, elements, raises.
  destruct (getitem x key) as [v|e'] eqn:E; simpl.
  - destruct (iter v) as [l|e'] eqn:El; simpl.
    + intros H.
      destruct (for_each_error _ _ body bad lookup_error Herr l tabs e H)
        as [HP Hex].
      split; [exact HP|]. right. exists l. split; [reflexivity | exact Hex].
    + intros [= <-]. split; [eapply iter_error, El|].
      left. exists e'. reflexivity.
  - intros [= <-]. split; [eapply getitem_error, E|].
    left. exists e'. reflexivity.
Qed.

Lemma tab_bad tabs t : tab_malformed t -> raises (tab_body tabs t).
Proof. apply nested_bad; [apply entry_bad | apply entry_error]. Qed.

Lemma tab_error tabs t e :
  tab_body tabs t = Raise e -> lookup_error e /\ tab_malformed t.
Proof. apply nested_error, entry_error. Qed.

Lemma window_bad tabs w : window_malformed w -> raises (window_body tabs w).
Proof. apply nested_bad; [apply tab_bad | apply tab_error]. Qed.

Lemma window_error tabs w e :
  window_body tabs w = Raise e -> lookup_error e /\ window_malformed w.
Proof. apply nested_error, tab_error. Qed.

(** C2, amended.  [tab_info] raises exactly on a malformed document: one
    where the windows, the tabs of a window or the entries of a tab cannot
    be read as a sequence, or where an entry has no title or no URL.  The
    exception is the [KeyError] or [TypeError] of the failing access.  A
    document that is not malformed yields its tabs; there a value that is
    an empty [dict] or an empty [str] passes for an empty sequence. *)
Theorem tab_info_malformed :
  forall data : json,
    (document_malformed data ->
     exists e, Fftabs.tab_info data = Raise e /\ lookup_error e) /\
    (forall e, Fftabs.tab_info data = Raise e -> document_malformed data) /\
    (~ document_malformed data -> exists tabs, Fftabs.tab_info data = Ok tabs).
Proof.
  intros data.
  assert (Herr : forall e, Fftabs.tab_info data = Raise e ->
                           lookup_error e /\ document_malformed data).
  { intros e H. unfold Fftabs.tab_info in H.
    eapply nested_error; [|exact H]. apply window_error. }
  split; [|split].
  - intros H.
    destruct (nested_bad data (str "windows") [] window_body window_malformed
                window_bad window_error H) as [e He].
    exists e. split; [exact He | apply (Herr e), He].
  - intros e H. apply (Herr e), H.
  - intros H. destruct (result_cases _ (Fftabs.tab_info data)) as [Hok|[e He]].
    + exact Hok.
    + exfalso. apply H, (Herr e), He.
Qed.

End Extractor.

(** * The claims about the main block *)

Lemma for_each_app (A T : Type) (body : T -> A -> result T) l1 l2 :
  forall acc,
    for_each (l1 ++ l2) acc body
    = (acc' <- for_each l1 acc body ;; for_each l2 acc' body).
Proof.
  induction l1 as [|x l1 IH]; intros acc; simpl; [reflexivity|].
  destruct (body acc x); simpl; [apply IH | reflexivity].
Qed.

Lemma str_eqb_refl s : str_eqb s s = true.
Proof.
  induction s as [|c s IH]; simpl; [reflexivity|].
  rewrite N.eqb_refl, IH. reflexivity.
Qed.

Lemma tab_eqb_refl t : hashable_tab t -> tab_eqb t t = true.
Proof.
  assert (H : forall v, hashable v = true -> scalar_eqb v v = true).
  { intros [| b | x | s | l | items]; simpl; intros H;
      try reflexivity; try discriminate.
    - apply eqb_reflx.
    - apply Qeq_bool_iff. reflexivity.
    - apply str_eqb_refl. }
  unfold hashable_tab, tab_eqb. intros Ht.
  apply andb_true_iff in Ht. destruct Ht as [H1 H2].
  rewrite (H _ H1), (H _ H2). reflexivity.
Qed.

Lemma set_add_spec tabs t :
  hashable_tab t ->
  exists tabs',
    set_add tabs t = Ok tabs' /\ in_set t tabs' /\
    forall u, in_set u tabs -> in_set u tabs'.
Proof.
  intros Ht. unfold set_add. rewrite Ht. unfold in_set.
  destruct (existsb (tab_eqb t) tabs) eqn:E.
  - exists tabs. repeat split; [exact E | auto].
  - exists (tabs ++ [t]). split; [reflexivity|]. split.
    + rewrite existsb_app. simpl. rewrite (tab_eqb_refl t Ht).
      apply orb_true_iff. right. reflexivity.
    + intros u Hu. rewrite existsb_app, Hu. reflexivity.
Qed.

Lemma set_update_spec ts :
  Forall hashable_tab ts ->
  forall tabs,
  exists tabs',
    set_update tabs ts = Ok tabs' /\
    (forall t, In t ts -> in_set t tabs') /\
    forall u, in_set u tabs -> in_set u tabs'.
Proof.
  unfold set_update.
  induction 1 as [|t ts Ht Hts IH]; intros tabs; simpl.
  - exists tabs. repeat split; [intros t [] | auto].
  - destruct (set_add_spec tabs t Ht) as (tabs1 & E1 & Hin1 & Hmono1).
    rewrite E1. simpl.
    destruct (IH tabs1) as (tabs2 & E2 & Hin2 & Hmono2).
    exists tabs2. split; [exact E2|]. split.
    + intros u [<-|Hu]; [apply Hmono2, Hin1 | apply Hin2, Hu].
    + intros u Hu. apply Hmono2, Hmono1, Hu.
Qed.

Section Shell.

Variable lower : pystr -> pystr.
Variable urlparse : pystr -> ParseResult.
Variable open_rb : pystr -> result bytes.
Variable lz4_block_decompress : bytes -> result bytes.
Variable json_loads : bytes -> result json.

Local Abbreviation read_jsonlz4 :=
  (Fftabs.read_jsonlz4 open_rb lz4_block_decompress json_loads).
Local Abbreviation collect_tabs :=
  (Fftabs.collect_tabs open_rb lz4_block_decompress json_loads).
Local Abbreviation main :=
  (Fftabs.main lower urlparse open_rb lz4_block_decompress json_loads).
Local Abbreviation suggested_tabs := (Fftabs.suggested_tabs lower urlparse).

(** What one turn of the loop over the files reads. *)
Local Abbreviation file_tabs file :=
  (data <- read_jsonlz4 file ;; Fftabs.tab_info data).

Local Abbreviation file_body :=
  (fun (tabs : list tab) (file : pystr) =>
     data <- read_jsonlz4 file ;;
     file_tabs <- Fftabs.tab_info data ;;
     set_update tabs file_tabs).

Lemma collect_good files :
  (forall f, In f files ->
     exists ts, file_tabs f = Ok ts /\ Forall hashable_tab ts) ->
  forall tabs,
  exists tabs',
    for_each files tabs file_body = Ok tabs' /\
    (forall f ts t, In f files -> file_tabs f = Ok ts -> In t ts ->
                    in_set t tabs') /\
    forall u, in_set u tabs -> in_set u tabs'.
Proof.
  induction files as [|f files IH]; intros Hgood tabs; simpl.
  - exists tabs. repeat split; [intros f ts t [] | auto].
  - destruct (Hgood f (or_introl eq_refl)) as (ts & Ef & Hts).
    destruct (read_jsonlz4 f) as [data|e] eqn:Er; simpl in Ef; [|discriminate].
    simpl. rewrite Ef. simpl.
    destruct (set_update_spec ts Hts tabs) as (tabs1 & E1 & Hin1 & Hmono1).
    rewrite E1. simpl.
    destruct (IH (fun g Hg => Hgood g (or_intror Hg)) tabs1)
      as (tabs2 & E2 & Hin2 & Hmono2).
    exists tabs2. split; [exact E2|]. split.
    + intros g ts' t [<-|Hg] Eg Ht.
      * rewrite Er in Eg. simpl in Eg. rewrite Ef in Eg.
        injection Eg as <-. apply Hmono2, Hin1, Ht.
      * eapply Hin2; eassumption.
    + intros u Hu. apply Hmono2, Hmono1, Hu.
Qed.

(** C1, amended.  The loop over the session files has no handler: when
    reading or extracting a file raises, after files that were read, the
    exception leaves the loop and the main block, and nothing is printed,
    whatever the files after it hold.  When every file is read, every tab
    of every file is in the set. *)
Theorem main_aborts_on_failure :
  (forall (argv : list pystr) (before : list pystr) (file : pystr)
          (after : list pystr) (e : exn),
     (forall f, In f before ->
        exists ts, file_tabs f = Ok ts /\ Forall hashable_tab ts) ->
     file_tabs file = Raise e ->
     collect_tabs (before ++ file :: after) = Raise e /\
     main argv (before ++ file :: after) = Raise e) /\
  (forall files : list pystr,
     (forall f, In f files ->
        exists ts, file_tabs f = Ok ts /\ Forall hashable_tab ts) ->
     exists tabs,
       collect_tabs files = Ok tabs /\
       forall f ts t, In f files -> file_tabs f = Ok ts -> In t ts ->
                      in_set t tabs).
Proof.
  split.
  - intros argv before file after e Hbefore Hfile.
    assert (Hc : collect_tabs (before ++ file :: after) = Raise e).
    { unfold Fftabs.collect_tabs. rewrite for_each_app.
      destruct (collect_good before Hbefore []) as (tabs1 & E1 & _).
      rewrite E1. simpl.
      destruct (read_jsonlz4 file) as [data|e'] eqn:Er; simpl in Hfile |- *.
      - rewrite Hfile. reflexivity.
      - exact Hfile. }
    split; [exact Hc|]. unfold Fftabs.main. rewrite Hc. reflexivity.
  - intros files Hfiles.
    destruct (collect_good files Hfiles []) as (tabs & E & Hin & _).
    exists tabs. split; [exact E | exact Hin].
Qed.

Lemma as_records (records : list record) :
  forall acc,
    for_each (map Fftabs.of_record records) acc
      (fun acc t => r <- Fftabs.as_record t ;; Ok (acc ++ [r]))
    = Ok (acc ++ records).
Proof.
  induction records as [|[title url] records IH]; intros acc; simpl.
  - rewrite app_nil_r. reflexivity.
  - rewrite IH, <- app_assoc. reflexivity.
Qed.

(** The empty query scores 0 on every record. *)
Lemma value_empty_query (tab : record) :
  lower [] = [] -> (Fftabs.value lower urlparse [] tab == 0)%Q.
Proof.
  intros Hl. destruct tab as [title url].
  pose proof (value_unfold lower urlparse [] title url) as E.
  cbv zeta in E. rewrite E, Hl. simpl.
  rewrite diff_value_empty_query. reflexivity.
Qed.

Lemma suggest_tabs_empty_query (records : list record) (nmax : nat) :
  lower [] = [] -> Fftabs.suggest_tabs lower urlparse records [] nmax = [].
Proof.
  intros Hl. unfold Fftabs.suggest_tabs.
  replace (filter _ records) with (@nil record); [destruct nmax; reflexivity|].
  symmetry. induction records as [|r records IH]; simpl; [reflexivity|].
  replace (Qltb Fftabs.THRESHOLD (Fftabs.value lower urlparse [] r)) with false;
    [exact IH|].
  symmetry. apply Qltb_ge. rewrite (value_empty_query r Hl). discriminate.
Qed.


End Shell.

(** * The program on concrete inputs *)

Local Abbreviation demo_main :=
  (Fftabs.main py_lower py_urlparse demo_open_rb demo_decompress
     demo_json_loads).

Local Abbreviation demo_file_tabs file :=
  (data <- Fftabs.read_jsonlz4 demo_open_rb demo_decompress demo_json_loads file ;;
   Fftabs.tab_info data).

(** The snapshot of profile [a] does not decompress: the run ends with the
    exception although the snapshot of profile [b], alone, yields a tab. *)
Lemma corrupt_file_aborts_run :
  demo_main [script] [profile_a; profile_b] = Raise LZ4BlockError /\
  demo_main [script] [profile_b] = Ok [(1, Fftabs.of_record gmail_tab)].
Proof. split; vm_compute; reflexivity. Qed.

Lemma main_aborts_on_failure_witness :
  demo_file_tabs profile_a = Raise LZ4BlockError /\
  demo_main [script] [profile_b; profile_a] = Raise LZ4BlockError.
Proof.
  split; [vm_compute; reflexivity|].
  apply (proj1 (main_aborts_on_failure py_lower py_urlparse demo_open_rb
                  demo_decompress demo_json_loads)
           [script] [profile_b] profile_a [] LZ4BlockError).
  - intros f [<-|[]].
    exists [Fftabs.of_record gmail_tab].
    split; [vm_compute; reflexivity|].
    repeat constructor.
  - vm_compute. reflexivity.
Defined.

(** An empty [dict] in the place of the list of tabs is not a list, and
    the extractor returns without a tab and without an exception. *)
Lemma empty_dict_tabs_accepted :
  (forall window l,
     In window [JDict [(str "tabs", JDict [])]] ->
     getitem window (str "tabs") <> Ok (JList l)) /\
  Fftabs.tab_info empty_dict_document = Ok [].
Proof.
  split; [|vm_compute; reflexivity].
  intros window l [<-|[]]. vm_compute. discriminate.
Qed.

Lemma tab_info_malformed_witness :
  document_malformed no_tabs_document /\
  exists e, Fftabs.tab_info no_tabs_document = Raise e /\ lookup_error e.
Proof.
  assert (H : document_malformed no_tabs_document).
  { right. exists [JDict [(str "title", JStr (str "w"))]].
    split; [reflexivity|].
    apply Exists_cons_hd. left. exists (KeyError (str "tabs")).
    vm_compute. reflexivity. }
  split; [exact H|].
  apply (proj1 (tab_info_malformed no_tabs_document)). exact H.
Defined.







Lemma twenty_tabs_above_threshold :
  forallb (fun r => Qltb (3 # 2)
                      (Fftabs.value py_lower py_urlparse (str "mail") r))
    twenty_tabs = true.
Proof. vm_compute. reflexivity. Qed.


(** Upper-casing turns U+00DF into [SS]: the upper-cased query has another
    lower-cased form, no longer occurs in the title, and scores less. *)
Lemma upper_changes_score :
  ~ (Fftabs.value py_lower py_urlparse sharp_s_query sharp_s_tab
     == Fftabs.value py_lower py_urlparse (py_upper sharp_s_query) sharp_s_tab)%Q.
Proof. intros H. vm_compute in H. discriminate. Qed.

Lemma value_recasing_witness :
  py_lower (str "GitHub") = py_lower (str "github") /\
  Fftabs.value py_lower py_urlparse (str "GitHub") github_tab
  = Fftabs.value py_lower py_urlparse (str "github") github_tab /\
  Fftabs.value py_lower py_urlparse (py_upper (str "github")) github_tab
  = Fftabs.value py_lower py_urlparse (str "github") github_tab.
Proof.
  assert (H : py_lower (str "GitHub") = py_lower (str "github")) by reflexivity.
  split; [exact H|]. split.
  - exact (proj1 value_recasing py_lower py_urlparse
             (str "github") (str "GitHub") github_tab H).
  - apply (proj2 value_recasing py_urlparse (str "github") github_tab).
    repeat constructor.
Defined.



(** * Further properties of the extractor *)

Section Accumulate.

Variables A B : Type.
Variable body : list B -> A -> result (list B).
Variable yields : A -> list B -> Prop.

Hypothesis body_yields :
  forall acc x lx, yields x lx -> body acc x = Ok (acc ++ lx).
Hypothesis body_ok :
  forall acc x r, body acc x = Ok r -> exists lx, yields x lx /\ r = acc ++ lx.

(** A loop whose body appends what an element yields appends the yields
    of all the elements, in order. *)
Lemma for_each_yields l ls :
  Forall2 yields l ls ->
  forall acc, for_each l acc body = Ok (acc ++ concat ls).
Proof.
  induction 1 as [|x lx l ls Hx Hl IH]; intros acc; simpl.
  - rewrite app_nil_r. reflexivity.
  - rewrite (body_yields acc x lx Hx). simpl.
    rewrite IH, app_assoc. reflexivity.
Qed.

Lemma for_each_ok l :
  forall acc r,
    for_each l acc body = Ok r ->
    exists ls, Forall2 yields l ls /\ r = acc ++ concat ls.
Proof.
  induction l as [|x l IH]; intros acc r H; simpl in H.
  - injection H as <-. exists []. split; [constructor|].
    simpl. rewrite app_nil_r. reflexivity.
  - destruct (body acc x) as [acc'|e] eqn:E; simpl in H; [|discriminate].
    destruct (body_ok acc x acc' E) as (lx & Hx & ->).
    destruct (IH _ _ H) as (ls & Hls & ->).
    exists (lx :: ls). split; [constructor; assumption|].
    simpl. rewrite app_assoc. reflexivity.
Qed.

End Accumulate.

(** What a loop over the sequence under [key] yields. *)
Lemma nested_yields (B : Type) (x : json) (key : pystr)
    (body : list B -> json -> result (list B))
    (yields : json -> list B -> Prop) :
  (forall acc y ly, yields y ly -> body acc y = Ok (acc ++ ly)) ->
  forall acc lx,
    (exists l ls, elements x key l /\ Forall2 yields l ls /\ lx = concat ls) ->
    (v <- getitem x key ;; l <- iter v ;; for_each l acc body)
    = Ok (acc ++ lx).
Proof.
  intros Hbody acc lx (l & ls & Hel & Hls & ->). unfold elements in Hel.
  destruct (getitem x key) as [v|e]; simpl in Hel |- *; [|discriminate].
  rewrite Hel. simpl. apply (for_each_yields _ _ body yields Hbody), Hls.
Qed.

Lemma nested_ok (B : Type) (x : json) (key : pystr)
    (body : list B -> json -> result (list B))
    (yields : json -> list B -> Prop) :
  (forall acc y r, body acc y = Ok r ->
                   exists ly, yields y ly /\ r = acc ++ ly) ->
  forall acc r,
    (v <- getitem x key ;; l <- iter v ;; for_each l acc body) = Ok r ->
    exists lx,
      (exists l ls, elements x key l /\ Forall2 yields l ls /\ lx = concat ls)
      /\ r = acc ++ lx.
Proof.
  intros Hbody acc r H. unfold elements.
  destruct (getitem x key) as [v|e]; simpl in H |- *; [|discriminate].
  destruct (iter v) as [l|e]; simpl in H; [|discriminate].
  destruct (for_each_ok _ _ body yields Hbody l acc r H) as (ls & Hls & ->).
  exists (concat ls). split; [|reflexivity].
  exists l, ls. repeat split. exact Hls.
Qed.

Section Order.

Local Abbreviation entry_body :=
  (fun (tabs : list tab) (entry : json) =>
     title <- getitem entry (str "title") ;;
     url <- getitem entry (str "url") ;;
     Ok (tabs ++ [(title, url)])).

Local Abbreviation tab_body :=
  (fun (tabs : list tab) (t : json) =>
     entries <- getitem t (str "entries") ;;
     entries <- iter entries ;;
     for_each entries tabs entry_body).

Local Abbreviation window_body :=
  (fun (tabs : list tab) (window : json) =>
     window_tabs <- getitem window (str "tabs") ;;
     window_tabs <- iter window_tabs ;;
     for_each window_tabs tabs tab_body).

(** What one entry appends: the list of its one tuple. *)
Local Abbreviation entry_list :=
  (fun (entry : json) (l : list tab) =>
     exists t, entry_yields entry t /\ l = [t]).

Lemma entry_body_yields acc entry l :
  entry_list entry l -> entry_body acc entry = Ok (acc ++ l).
Proof.
  intros ([title url] & [Ht Hu] & ->). cbv beta. simpl in Ht, Hu.
  rewrite Ht. simpl. rewrite Hu. reflexivity.
Qed.

Lemma entry_body_ok acc entry r :
  entry_body acc entry = Ok r -> exists l, entry_list entry l /\ r = acc ++ l.
Proof.
  cbv beta.
  destruct (getitem entry (str "title")) as [title|e] eqn:Et; simpl;
    [|discriminate].
  destruct (getitem entry (str "url")) as [url|e] eqn:Eu; simpl;
    [|discriminate].
  intros [= <-]. exists [(title, url)]. split; [|reflexivity].
  exists (title, url). repeat split; assumption.
Qed.

Lemma entries_flat entries :
  forall l,
    (exists ls, Forall2 entry_list entries ls /\ l = concat ls)
    <-> Forall2 entry_yields entries l.
Proof.
  induction entries as [|entry entries IH]; intros l; split.
  - intros (ls & H & ->). inversion H. constructor.
  - intros H. inversion H. exists []. split; constructor.
  - intros (ls & H & ->). inversion H as [|? lx ? ls' (t & Ht & ->) Hls]; subst.
    simpl. constructor; [exact Ht|]. apply IH. exists ls'. split; auto.
  - intros H. inversion H as [|? t ? l' Ht Hl]; subst.
    apply IH in Hl. destruct Hl as (ls & Hls & ->).
    exists ([t] :: ls). split; [|reflexivity].
    constructor; [exists t; split; auto | exact Hls].
Qed.

Lemma tab_body_yields acc t l :
  tab_yields t l -> tab_body acc t = Ok (acc ++ l).
Proof.
  intros (entries & Hel & Hl). apply entries_flat in Hl.
  destruct Hl as (ls & Hls & ->).
  apply (nested_yields _ t (str "entries") entry_body entry_list
           entry_body_yields).
  exists entries, ls. repeat split; assumption.
Qed.

Lemma tab_body_ok acc t r :
  tab_body acc t = Ok r -> exists l, tab_yields t l /\ r = acc ++ l.
Proof.
  intros H.
  destruct (nested_ok _ t (str "entries") entry_body entry_list
              entry_body_ok acc r H) as (l & (entries & ls & Hel & Hls & ->) & ->).
  exists (concat ls). split; [|reflexivity].
  exists entries. split; [exact Hel|]. apply entries_flat.
  exists ls. split; auto.
Qed.

Lemma window_body_yields acc w l :
  window_yields w l -> window_body acc w = Ok (acc ++ l).
Proof.
  intros (tabs & ls & Hel & Hls & ->).
  apply (nested_yields _ w (str "tabs") tab_body tab_yields tab_body_yields).
  exists tabs, ls. repeat split; assumption.
Qed.

Lemma window_body_ok acc w r :
  window_body acc w = Ok r -> exists l, window_yields w l /\ r = acc ++ l.
Proof.
  intros H.
  destruct (nested_ok _ w (str "tabs") tab_body tab_yields tab_body_ok acc r H)
    as (l & (tabs & ls & Hel & Hls & ->) & ->).
  exists (concat ls). split; [|reflexivity].
  exists tabs, ls. repeat split; assumption.
Qed.

(** X1.  [tab_info] returns a list exactly when the document yields it:
    the tuples [(title, url)] of all the entries of all the tabs of all
    the windows, one per history entry, in the order of the document. *)
Theorem tab_info_document_order :
  forall (data : json) (l : list tab),
    Fftabs.tab_info data = Ok l <-> document_yields data l.
Proof.
  intros data l. unfold Fftabs.tab_info, document_yields. split.
  - intros H.
    destruct (nested_ok _ data (str "windows") window_body window_yields
                window_body_ok [] l H)
      as (l' & (windows & ls & Hel & Hls & ->) & ->).
    exists windows, ls. repeat split; assumption.
  - intros (windows & ls & Hel & Hls & ->).
    apply (nested_yields _ data (str "windows") window_body window_yields
             window_body_yields [] (concat ls)).
    exists windows, ls. repeat split; assumption.
Qed.

End Order.

Lemma tab_info_document_order_witness :
  document_yields two_window_document
    [tab_of "A" "https://a.example/"; tab_of "B" "https://b.example/";
     tab_of "C" "https://c.example/"; tab_of "A" "https://a.example/"].
Proof.
  apply (proj1 (tab_info_document_order two_window_document _)).
  vm_compute. reflexivity.
Defined.

(** X2.  The first failing access decides the exception: when the windows
    before it are well formed and a window is a [dict] without the key
    ["tabs"], [tab_info] raises [KeyError('tabs')], whatever follows. *)
Theorem tab_info_missing_tabs_key :
  forall (data : json) (good : list json) (ls : list (list tab))
         (items : list (pystr * json)) (rest : list json),
    elements data (str "windows") (good ++ JDict items :: rest) ->
    Forall2 window_yields good ls ->
    dict_get items (str "tabs") = None ->
    Fftabs.tab_info data = Raise (KeyError (str "tabs")).
Proof.
  intros data good ls items rest Hel Hgood Hnone.
  unfold Fftabs.tab_info. unfold elements in Hel.
  destruct (getitem data (str "windows")) as [v|e]; simpl in Hel |- *;
    [|discriminate].
  rewrite Hel. simpl. rewrite for_each_app.
  rewrite (for_each_yields _ _ _ window_yields window_body_yields good ls Hgood).
  simpl. rewrite Hnone. reflexivity.
Qed.

Lemma tab_info_missing_tabs_key_witness :
  Fftabs.tab_info
    (JDict [(str "windows",
             JList [JDict [(str "tabs", JList [])];
                    JDict [(str "closed", JList [])];
                    JNum 3])])
  = Raise (KeyError (str "tabs")).
Proof.
  apply (tab_info_missing_tabs_key _ [JDict [(str "tabs", JList [])]] [[]]
           [(str "closed", JList [])] [JNum 3]).
  - reflexivity.
  - constructor; [|constructor].
    exists [], []. repeat split. constructor.
  - reflexivity.
Defined.

(** * Further properties of the main block *)

Lemma distinct_snoc tabs t :
  distinct tabs -> existsb (tab_eqb t) tabs = false -> distinct (tabs ++ [t]).
Proof.
  unfold distinct. induction 1 as [|u tabs Hu Htabs IH]; intros Ht; simpl.
  - repeat constructor.
  - simpl in Ht. apply orb_false_iff in Ht. destruct Ht as [Htu Ht].
    constructor; [|apply IH, Ht].
    apply Forall_app. split; [exact Hu|]. constructor; [exact Htu|constructor].
Qed.

(** What [tabs.add(t)] keeps: no member twice, only hashable members, and
    no member other than the old ones and [t]. *)
Lemma set_add_inv tabs t tabs' :
  set_add tabs t = Ok tabs' ->
  hashable_tab t /\
  (distinct tabs -> distinct tabs') /\
  (forall u, In u tabs' -> In u tabs \/ u = t) /\
  (in_set t tabs -> tabs' = tabs).
Proof.
  unfold set_add, hashable_tab, in_set.
  destruct (hashable (fst t) && hashable (snd t)); [|discriminate].
  destruct (existsb (tab_eqb t) tabs) eqn:E; intros [= <-].
  - repeat split; auto.
  - repeat split.
    + intros H. apply distinct_snoc; assumption.
    + intros u Hu. apply in_app_or in Hu.
      destruct Hu as [Hu|[<-|[]]]; auto.
    + discriminate.
Qed.

Lemma set_update_inv ts :
  forall tabs tabs',
    set_update tabs ts = Ok tabs' ->
    Forall hashable_tab ts /\
    (distinct tabs -> distinct tabs') /\
    (forall u, In u tabs' -> In u tabs \/ In u ts) /\
    ((forall t, In t ts -> in_set t tabs) -> tabs' = tabs).
Proof.
  unfold set_update.
  induction ts as [|t ts IH]; intros tabs tabs' H; simpl in H.
  - injection H as <-. repeat split; auto.
  - destruct (set_add tabs t) as [tabs1|e] eqn:E1; simpl in H; [|discriminate].
    destruct (set_add_inv tabs t tabs1 E1) as (Ht & Hd1 & Hin1 & Hsame1).
    destruct (IH tabs1 tabs' H) as (Hts & Hd2 & Hin2 & Hsame2).
    repeat split.
    + constructor; assumption.
    + intros Hd. apply Hd2, Hd1, Hd.
    + intros u Hu. destruct (Hin2 u Hu) as [Hu1|Hu2].
      * destruct (Hin1 u Hu1) as [Hu0| ->]; [left; assumption|].
        right. left. reflexivity.
      * right. right. exact Hu2.
    + intros Hall.
      assert (E : tabs1 = tabs) by (apply Hsame1, Hall; left; reflexivity).
      subst tabs1. apply Hsame2. intros u Hu. apply Hall. right. exact Hu.
Qed.

Section MainBlock.

Variable lower : pystr -> pystr.
Variable urlparse : pystr -> ParseResult.
Variable open_rb : pystr -> result bytes.
Variable lz4_block_decompress : bytes -> result bytes.
Variable json_loads : bytes -> result json.

Local Abbreviation read_jsonlz4 :=
  (Fftabs.read_jsonlz4 open_rb lz4_block_decompress json_loads).
Local Abbreviation collect_tabs :=
  (Fftabs.collect_tabs open_rb lz4_block_decompress json_loads).
Local Abbreviation main :=
  (Fftabs.main lower urlparse open_rb lz4_block_decompress json_loads).
Local Abbreviation suggested_tabs := (Fftabs.suggested_tabs lower urlparse).
Local Abbreviation value := (Fftabs.value lower urlparse).

Local Abbreviation file_tabs file :=
  (data <- read_jsonlz4 file ;; Fftabs.tab_info data).

Local Abbreviation file_body :=
  (fun (tabs : list tab) (file : pystr) =>
     data <- read_jsonlz4 file ;;
     file_tabs <- Fftabs.tab_info data ;;
     set_update tabs file_tabs).

Lemma collect_inv files :
  forall tabs tabs',
    for_each files tabs file_body = Ok tabs' ->
    (forall f, In f files ->
       exists ts, file_tabs f = Ok ts /\ Forall hashable_tab ts) /\
    (distinct tabs -> distinct tabs') /\
    (forall u, In u tabs' ->
       In u tabs \/ exists f ts, In f files /\ file_tabs f = Ok ts /\ In u ts).
Proof.
  induction files as [|f files IH]; intros tabs tabs' H; simpl in H.
  - injection H as <-. repeat split; auto. intros f [].
  - destruct (read_jsonlz4 f) as [data|e] eqn:Er; simpl in H; [|discriminate].
    destruct (Fftabs.tab_info data) as [ts|e] eqn:Et; simpl in H; [|discriminate].
    destruct (set_update tabs ts) as [tabs1|e] eqn:Eu; simpl in H; [|discriminate].
    destruct (set_update_inv ts tabs tabs1 Eu) as (Hts & Hd1 & Hin1 & _).
    destruct (IH tabs1 tabs' H) as (Hfiles & Hd2 & Hin2).
    assert (Ef : file_tabs f = Ok ts) by (rewrite Er; simpl; exact Et).
    repeat split.
    + intros g [<-|Hg]; [exists ts; split; assumption | apply Hfiles, Hg].
    + intros Hd. apply Hd2, Hd1, Hd.
    + intros u Hu. destruct (Hin2 u Hu) as [Hu1|(g & ts' & Hg & Eg & Hu2)].
      * destruct (Hin1 u Hu1) as [Hu0|Hu0]; [left; exact Hu0|].
        right. exists f, ts. repeat split; [left; reflexivity | exact Ef | exact Hu0].
      * right. exists g, ts'. repeat split; [right; exact Hg | exact Eg | exact Hu2].
Qed.

(** X3.  The set that the loop over the files builds holds no tab twice:
    two members are never equal as Python compares them.  Equal tabs of
    one file or of several files are kept once. *)
Theorem collect_tabs_distinct :
  forall (files : list pystr) (tabs : list tab),
    collect_tabs files = Ok tabs -> distinct tabs.
Proof.
  intros files tabs H. unfold Fftabs.collect_tabs in H.
  destruct (collect_inv files [] tabs H) as (_ & Hd & _).
  apply Hd. constructor.
Qed.

(** X4.  Every member of the set is a tab that [tab_info] returned for one
    of the files, with a title and a URL that can be hashed: the loop adds
    nothing else. *)
Theorem collect_tabs_sound :
  forall (files : list pystr) (tabs : list tab) (t : tab),
    collect_tabs files = Ok tabs ->
    In t tabs ->
    hashable_tab t /\
    exists f ts, In f files /\ file_tabs f = Ok ts /\ In t ts.
Proof.
  intros files tabs t H Ht. unfold Fftabs.collect_tabs in H.
  destruct (collect_inv files [] tabs H) as (Hfiles & _ & Hin).
  destruct (Hin t Ht) as [[]|(f & ts & Hf & Ef & Hts)].
  split; [|exists f, ts; repeat split; assumption].
  destruct (Hfiles f Hf) as (ts' & Ef' & Hhash).
  rewrite Ef in Ef'. injection Ef' as <-.
  rewrite Forall_forall in Hhash. apply Hhash, Hts.
Qed.

(** X5.  A file that was read already adds nothing when it is read again:
    the set after [files] and then [f] is the set after [files]. *)
Theorem collect_tabs_again :
  forall (files : list pystr) (f : pystr) (tabs : list tab),
    collect_tabs files = Ok tabs ->
    In f files ->
    collect_tabs (files ++ [f]) = Ok tabs.
Proof.
  intros files f tabs H Hf. unfold Fftabs.collect_tabs in *.
  rewrite for_each_app, H. simpl.
  destruct (collect_inv files [] tabs H) as (Hfiles & _ & _).
  destruct (collect_good open_rb lz4_block_decompress json_loads files Hfiles [])
    as (tabs0 & E0 & Hin0 & _).
  rewrite H in E0. injection E0 as <-.
  destruct (Hfiles f Hf) as (ts & Ef & Hts).
  destruct (read_jsonlz4 f) as [data|e] eqn:Er; simpl in Ef; [|discriminate].
  simpl. rewrite Ef. simpl.
  destruct (set_update_spec ts Hts tabs) as (tabs1 & E1 & _).
  rewrite E1. simpl. f_equal.
  destruct (set_update_inv ts tabs tabs1 E1) as (_ & _ & _ & Hsame).
  apply Hsame. intros t Ht. apply (Hin0 f ts t Hf); [|exact Ht].
  rewrite Er. simpl. exact Ef.
Qed.

(** X6.  A title or URL that is a JSON array or object cannot be hashed:
    after files that were read, a file with such a tab ends the run with
    [TypeError], with or without a query. *)
Theorem unhashable_tab_aborts :
  forall (argv : list pystr) (before : list pystr) (file : pystr)
         (after : list pystr) (ts : list tab),
    (forall f, In f before ->
       exists ts, file_tabs f = Ok ts /\ Forall hashable_tab ts) ->
    file_tabs file = Ok ts ->
    Exists (fun t => ~ hashable_tab t) ts ->
    main argv (before ++ file :: after) = Raise TypeError.
Proof.
  intros argv before file after ts Hbefore Hfile Hbad.
  assert (Hset : forall tabs, set_update tabs ts = Raise TypeError).
  { clear Hfile. unfold set_update.
    induction Hbad as [t ts Ht|t ts Hts IH]; intros tabs; simpl.
    - unfold set_add. unfold hashable_tab in Ht.
      destruct (hashable (fst t) && hashable (snd t)); [|reflexivity].
      exfalso. apply Ht. reflexivity.
    - unfold set_add at 1.
      destruct (hashable (fst t) && hashable (snd t)); [|reflexivity].
      simpl. apply IH. }
  unfold Fftabs.main, Fftabs.collect_tabs. rewrite for_each_app.
  destruct (collect_good open_rb lz4_block_decompress json_loads before
              Hbefore []) as (tabs1 & E1 & _).
  rewrite E1. simpl.
  destruct (read_jsonlz4 file) as [data|e] eqn:Er; simpl in Hfile; [|discriminate].
  simpl. rewrite Hfile. simpl. rewrite Hset. reflexivity.
Qed.

End MainBlock.

Lemma enumerate_spec (A : Type) (start : nat) (l : list A) :
  map fst (enumerate start l) = seq start (length l) /\
  map snd (enumerate start l) = l.
Proof.
  unfold enumerate. revert start.
  induction l as [|x l IH]; intros start; simpl; [split; reflexivity|].
  destruct (IH (S start)) as [H1 H2]. rewrite H1, H2. split; reflexivity.
Qed.

Lemma as_record_of_record (t : tab) (r : record) :
  Fftabs.as_record t = Ok r <-> t = Fftabs.of_record r.
Proof.
  destruct r as [title url]. unfold Fftabs.of_record, Fftabs.as_record.
  cbn [fst snd].
  destruct t as [[| | | s | |] [| | | s' | |]];
    split; intros H; try discriminate H; inversion H; reflexivity.
Qed.

Lemma as_record_error (t : tab) (e : exn) :
  Fftabs.as_record t = Raise e -> e = AttributeError.
Proof.
  unfold Fftabs.as_record.
  destruct t as [[| | | s | |] [| | | s' | |]];
    intros H; try discriminate H; inversion H; reflexivity.
Qed.

(** The loop that unpacks the members of the set for [value]. *)
Lemma as_records_cases (tabs : list tab) :
  forall acc,
    (exists records,
       tabs = map Fftabs.of_record records /\
       for_each tabs acc
         (fun acc t => r <- Fftabs.as_record t ;; Ok (acc ++ [r]))
       = Ok (acc ++ records)) \/
    (Exists (fun t => forall r, t <> Fftabs.of_record r) tabs /\
     for_each tabs acc
       (fun acc t => r <- Fftabs.as_record t ;; Ok (acc ++ [r]))
     = Raise AttributeError).
Proof.
  induction tabs as [|t tabs IH]; intros acc.
  - left. exists []. simpl. rewrite app_nil_r. split; reflexivity.
  - simpl. destruct (Fftabs.as_record t) as [r|e] eqn:E; simpl.
    + apply as_record_of_record in E. subst t.
      destruct (IH (acc ++ [r])) as [(records & -> & H)|[Hex H]].
      * left. exists (r :: records). split; [reflexivity|].
        rewrite H, <- app_assoc. reflexivity.
      * right. split; [apply Exists_cons_tl, Hex | exact H].
    + right. rewrite (as_record_error t e E). split; [|reflexivity].
      apply Exists_cons_hd. intros r Hr.
      apply as_record_of_record in Hr. congruence.
Qed.

Lemma not_all_records (records : list record) :
  ~ Exists (fun t => forall r, t <> Fftabs.of_record r)
      (map Fftabs.of_record records).
Proof.
  induction records as [|r records IH]; intros H;
    inversion H as [? ? Hr|? ? Hr]; subst.
  - apply (Hr r). reflexivity.
  - apply IH, Hr.
Qed.

Lemma of_record_injective (r r' : record) :
  Fftabs.of_record r = Fftabs.of_record r' -> r = r'.
Proof.
  destruct r as [t u], r' as [t' u']. unfold Fftabs.of_record. simpl.
  congruence.
Qed.

Lemma NoDup_firstn (A : Type) (n : nat) :
  forall l : list A, NoDup l -> NoDup (firstn n l).
Proof.
  induction n as [|n IH]; intros [|x l] Hl; simpl; try constructor.
  - inversion Hl; subst. intros Hin. apply In_firstn in Hin. contradiction.
  - inversion Hl; subst. apply IH. assumption.
Qed.

Lemma NoDup_map_injective (A B : Type) (f : A -> B) (l : list A) :
  (forall x y, f x = f y -> x = y) -> NoDup l -> NoDup (map f l).
Proof.
  intros Hf. induction 1 as [|x l Hx Hl IH]; simpl; constructor; [|exact IH].
  intros Hin. apply in_map_iff in Hin. destruct Hin as (y & E & Hy).
  apply Hf in E. subst y. contradiction.
Qed.

(** Distinct members that are pairs of strings are different records. *)
Lemma distinct_records (records : list record) :
  distinct (map Fftabs.of_record records) -> NoDup records.
Proof.
  unfold distinct. induction records as [|r records IH]; intros Hd;
    [constructor|].
  simpl in Hd. inversion Hd as [|? ? Hr Hrest]; subst.
  constructor; [|apply IH, Hrest].
  intros Hin. rewrite Forall_forall in Hr.
  specialize (Hr _ (in_map Fftabs.of_record _ _ Hin)).
  destruct r as [title url]. unfold tab_eqb, Fftabs.of_record in Hr.
  simpl in Hr. rewrite !str_eqb_refl in Hr. discriminate.
Qed.

Section Printing.

Variable lower : pystr -> pystr.
Variable urlparse : pystr -> ParseResult.
Variable open_rb : pystr -> result bytes.
Variable lz4_block_decompress : bytes -> result bytes.
Variable json_loads : bytes -> result json.

Local Abbreviation collect_tabs :=
  (Fftabs.collect_tabs open_rb lz4_block_decompress json_loads).
Local Abbreviation main :=
  (Fftabs.main lower urlparse open_rb lz4_block_decompress json_loads).
Local Abbreviation suggested_tabs := (Fftabs.suggested_tabs lower urlparse).
Local Abbreviation suggest_tabs := (Fftabs.suggest_tabs lower urlparse).
Local Abbreviation value := (Fftabs.value lower urlparse).

Lemma suggest_tabs_In tabs query nmax r :
  In r (suggest_tabs tabs query nmax) ->
  In r tabs /\ (3 # 2 < value query r)%Q.
Proof.
  intros H. apply In_firstn in H. apply sorted_In in H.
  apply (kept_In lower urlparse) in H. exact H.
Qed.

Lemma suggest_tabs_NoDup tabs query nmax :
  NoDup tabs -> NoDup (suggest_tabs tabs query nmax).
Proof.
  intros H. apply NoDup_firstn.
  eapply Permutation_NoDup; [apply Permutation_sym, sorted_perm|].
  apply NoDup_filter, H.
Qed.

Lemma suggested_with_query script query rest records :
  suggested_tabs (script :: query :: rest) (map Fftabs.of_record records)
  = Ok (map Fftabs.of_record (suggest_tabs records query 10)).
Proof.
  unfold Fftabs.suggested_tabs, Fftabs.suggest_tabs_of_set.
  rewrite as_records. reflexivity.
Qed.

Lemma suggested_with_query_raises script query rest tabs :
  Exists (fun t => forall r, t <> Fftabs.of_record r) tabs ->
  suggested_tabs (script :: query :: rest) tabs = Raise AttributeError.
Proof.
  intros Hex. unfold Fftabs.suggested_tabs, Fftabs.suggest_tabs_of_set.
  destruct (as_records_cases tabs []) as [(records & Ht & _)|[_ H]].
  - exfalso. subst tabs. exact (not_all_records records Hex).
  - rewrite H. reflexivity.
Qed.

Lemma main_inv argv files lines :
  main argv files = Ok lines ->
  exists tabs suggested,
    collect_tabs files = Ok tabs /\
    suggested_tabs argv tabs = Ok suggested /\
    lines = enumerate 1 suggested.
Proof.
  unfold Fftabs.main. intros H.
  destruct (collect_tabs files) as [tabs|e]; simpl in H; [|discriminate].
  destruct (suggested_tabs argv tabs) as [suggested|e] eqn:Es; simpl in H;
    [|discriminate].
  injection H as <-. exists tabs, suggested.
  split; [reflexivity|]. split; [exact Es | reflexivity].
Qed.




(** X10.  The 8 bytes of the header are skipped unread: a file decodes to
    what its bytes after the first 8 decompress and parse to, so two files
    that differ in their header only decode alike; a file of 8 bytes or
    fewer decodes as an empty payload. *)
Theorem read_jsonlz4_skips_header :
  forall (path path' : pystr) (header header' payload : bytes),
    length header = 8 -> length header' = 8 ->
    open_rb path = Ok (header ++ payload) ->
    Fftabs.read_jsonlz4 open_rb lz4_block_decompress json_loads path
    = (text <- lz4_block_decompress payload ;; json_loads text) /\
    (open_rb path' = Ok (header' ++ payload) ->
     Fftabs.read_jsonlz4 open_rb lz4_block_decompress json_loads path
     = Fftabs.read_jsonlz4 open_rb lz4_block_decompress json_loads path') /\
    (forall short, length short <= 8 -> open_rb path' = Ok short ->
       Fftabs.read_jsonlz4 open_rb lz4_block_decompress json_loads path'
       = (text <- lz4_block_decompress [] ;; json_loads text)).
Proof.
  intros path path' header header' payload Hh Hh' Hp.
  assert (Hskip : forall h : bytes,
            length h = 8 -> skipn 8 (h ++ payload) = payload).
  { intros h Hlen. rewrite skipn_app, Hlen, Nat.sub_diag.
    rewrite skipn_all2 by lia. reflexivity. }
  unfold Fftabs.read_jsonlz4. rewrite Hp. cbn [bind].
  rewrite (Hskip header Hh). split; [reflexivity|]. split.
  - intros Hp'. rewrite Hp'. cbn [bind]. rewrite (Hskip header' Hh').
    reflexivity.
  - intros short Hs Hp'. rewrite Hp'. cbn [bind].
    rewrite skipn_all2 by exact Hs. reflexivity.
Qed.

End Printing.

(** * Properties of the discovery of the session files *)

Section Files.

Variable os_name : pystr.
Variable getenv : pystr -> option pystr.
Variable path_join : pystr -> list pystr -> pystr.
Variable listdir : pystr -> result (list pystr).
Variable isfile : pystr -> bool.

Local Abbreviation session_files :=
  (Discovery.session_files os_name getenv path_join listdir isfile).
Local Abbreviation add_profile := (Discovery.add_profile path_join isfile).

(** The primary or the backup snapshot of [profile], when it is a file. *)
Local Abbreviation snapshot_of folder profile f :=
  ((f = path_join folder [profile; Discovery.FILENAME] \/
    f = path_join folder [profile; Discovery.FALLBACK]) /\
   isfile f = true).

Lemma add_profile_In folder files profile f :
  In f (add_profile folder files profile) <->
  In f files \/ snapshot_of folder profile f.
Proof.
  unfold Discovery.add_profile.
  destruct (isfile (path_join folder [profile; Discovery.FILENAME])) eqn:E1;
    destruct (isfile (path_join folder [profile; Discovery.FALLBACK])) eqn:E2;
    rewrite ?in_app_iff; simpl; intuition (subst; try congruence; auto).
Qed.

Lemma add_profile_length folder files profile :
  length (add_profile folder files profile) <= length files + 2.
Proof.
  unfold Discovery.add_profile.
  destruct (isfile _); destruct (isfile _); rewrite ?length_app; simpl; lia.
Qed.

Lemma add_profiles folder profiles :
  forall files,
    (forall f,
       In f (fold_left (add_profile folder) profiles files) <->
       In f files \/
       exists profile, In profile profiles /\ snapshot_of folder profile f) /\
    length (fold_left (add_profile folder) profiles files)
    <= length files + 2 * length profiles.
Proof.
  induction profiles as [|p profiles IH]; intros files; simpl.
  - split; [|lia]. intros f. split; [auto|].
    intros [H|(p & [] & _)]. exact H.
  - destruct (IH (add_profile folder files p)) as [Hin Hlen].
    pose proof (add_profile_length folder files p) as Hp. split; [|lia].
    intros f. rewrite Hin, add_profile_In. split.
    + intros [[H|H]|(q & Hq & H)].
      * left. exact H.
      * right. exists p. split; [left; reflexivity | exact H].
      * right. exists q. split; [right; exact Hq | exact H].
    + intros [H|(q & [<-|Hq] & H)].
      * left. left. exact H.
      * left. right. exact H.
      * right. exists q. split; [exact Hq | exact H].
Qed.

(** X11.  On Windows, with [APPDATA] set and the profile folder listed,
    the files returned are exactly the primary and the backup snapshots of
    the listed profiles that are files on disk, at most two per profile. *)
Theorem session_files_on_windows :
  forall (appdata : pystr) (profiles : list pystr),
    let folder :=
      path_join appdata [str "Mozilla"; str "Firefox"; str "Profiles"] in
    str_eqb os_name (str "nt") = true ->
    getenv (str "APPDATA") = Some appdata ->
    listdir folder = Ok profiles ->
    exists files,
      session_files = Ok files /\
      (forall f,
         In f files <->
         exists profile, In profile profiles /\ snapshot_of folder profile f) /\
      length files <= 2 * length profiles.
Proof.
  intros appdata profiles folder Hnt Henv Hdir.
  unfold Discovery.session_files. rewrite Hnt, Henv. cbn [bind].
  fold folder. rewrite Hdir. cbn [bind].
  destruct (add_profiles folder profiles []) as [Hin Hlen].
  eexists. split; [reflexivity|]. split.
  - intros f. rewrite Hin. simpl. tauto.
  - simpl in Hlen. exact Hlen.
Qed.

(** X12.  [session_files] raises on Windows only, and only in two ways:
    [TypeError] when [APPDATA] is not set, and the exception of
    [os.listdir] when the profile folder cannot be listed. *)
Theorem session_files_raises :
  forall e : exn,
    session_files = Raise e <->
    str_eqb os_name (str "nt") = true /\
    ((getenv (str "APPDATA") = None /\ e = TypeError) \/
     exists appdata,
       getenv (str "APPDATA") = Some appdata /\
       listdir (path_join appdata
                  [str "Mozilla"; str "Firefox"; str "Profiles"]) = Raise e).
Proof.
  intros e. unfold Discovery.session_files.
  destruct (str_eqb os_name (str "nt")).
  - destruct (getenv (str "APPDATA")) as [appdata|]; cbn [bind].
    + destruct (listdir _) as [profiles|e'] eqn:Hdir; cbn [bind]; split.
      * discriminate.
      * intros [_ [[H _]|(a & [= <-] & H)]]; [discriminate|].
        rewrite Hdir in H. discriminate.
      * intros [= <-]. split; [reflexivity|]. right. exists appdata.
        split; [reflexivity | exact Hdir].
      * intros [_ [[H _]|(a & [= <-] & H)]]; [discriminate|].
        rewrite Hdir in H. exact H.
    + split.
      * intros [= <-]. split; [reflexivity|]. left. split; reflexivity.
      * intros [_ [[_ ->]|(a & H & _)]]; [reflexivity | discriminate].
  - split; [discriminate|]. intros [H _]. discriminate.
Qed.

Variable lower : pystr -> pystr.
Variable urlparse : pystr -> ParseResult.
Variable open_rb : pystr -> result bytes.
Variable lz4_block_decompress : bytes -> result bytes.
Variable json_loads : bytes -> result json.

(** X13.  On a system that is not Windows no file is looked for and the
    program prints nothing, with or without a query, whatever the
    environment and the disk hold. *)
Theorem program_prints_nothing_elsewhere :
  str_eqb os_name (str "nt") = false ->
  session_files = Ok [] /\
  forall argv : list pystr,
    Discovery.program os_name getenv path_join listdir isfile lower urlparse
      open_rb lz4_block_decompress json_loads argv = Ok [].
Proof.
  intros Hos. unfold Discovery.program, Discovery.session_files.
  rewrite Hos. split; [reflexivity|].
  intros [|script [|query rest]]; reflexivity.
Qed.

End Files.

(** * Further properties of the scorer and of the ranker *)

Lemma sorted_fixed (A : Type) (key : A -> Q) (l : list A) :
  Sorted (key_le key) l -> sorted key l = l.
Proof.
  induction 1 as [|x l Hl IH Hhd]; [reflexivity|].
  cbn [sorted fold_right]. unfold sorted in IH. rewrite IH.
  destruct Hhd as [|y l' Hxy]; [reflexivity|].
  cbn [insert_by].
  replace (Qltb (key y) (key x)) with false; [reflexivity|].
  symmetry. apply Qltb_ge. exact Hxy.
Qed.

Lemma key_le_trans (A : Type) (key : A -> Q) (x y z : A) :
  key_le key x y -> key_le key y z -> key_le key x z.
Proof. unfold key_le. apply Qle_trans. Qed.

(** In a sorted list the key at a position is at most the key at any
    later position. *)
Lemma Sorted_nth (A : Type) (key : A -> Q) (l : list A) :
  Sorted (key_le key) l ->
  forall i j x y,
    i < j -> nth_error l i = Some x -> nth_error l j = Some y ->
    key_le key x y.
Proof.
  intros Hs. apply Sorted_StronglySorted in Hs;
    [|intros x y z; apply key_le_trans].
  induction Hs as [|z l Hl IH Hall]; intros i j x y Hij Hx Hy.
  - destruct i; discriminate.
  - destruct j as [|j]; [lia|]. simpl in Hy. destruct i as [|i]; simpl in Hx.
    + injection Hx as <-. rewrite Forall_forall in Hall.
      apply Hall. eapply nth_error_In, Hy.
    + apply (IH i j); [lia | exact Hx | exact Hy].
Qed.

Section RankerMore.

Variable lower : pystr -> pystr.
Variable urlparse : pystr -> ParseResult.

Local Abbreviation value := (Fftabs.value lower urlparse).
Local Abbreviation suggest_tabs := (Fftabs.suggest_tabs lower urlparse).
Local Abbreviation above query :=
  (fun tab : record => Qltb Fftabs.THRESHOLD (value query tab)).
Local Abbreviation by_score query :=
  (fun tab : record => (- value query tab)%Q).

(** The lower-cased query is long enough and occurs in the lower-cased
    string. *)
Local Abbreviation exact_match query s :=
  (3 <= length (lower query) /\ occurs (lower query) (lower s)).

Lemma bonus_cases query s :
  (exact_match query s /\
   (if (Fftabs.MIN_LENGTH <=? length (lower query))
       && contains (lower s) (lower query)
    then Fftabs.EXACT_VALUE else 0%Q) = 3%Q) \/
  (~ exact_match query s /\
   (if (Fftabs.MIN_LENGTH <=? length (lower query))
       && contains (lower s) (lower query)
    then Fftabs.EXACT_VALUE else 0%Q) = 0%Q).
Proof.
  destruct (Fftabs.MIN_LENGTH <=? length (lower query)) eqn:El;
    [destruct (contains (lower s) (lower query)) eqn:Ec|]; simpl.
  - left. split; [|reflexivity]. split.
    + apply Nat.leb_le, El.
    + apply contains_spec, Ec.
  - right. split; [|reflexivity]. intros [_ H].
    apply contains_spec in H. congruence.
  - right. split; [|reflexivity]. intros [H _].
    apply Nat.leb_le in H. unfold Fftabs.MIN_LENGTH in El. congruence.
Qed.




Lemma above_In tabs query r :
  In r (suggest_tabs tabs query (length tabs)) -> above query r = true.
Proof.
  intros H. apply In_firstn in H. apply sorted_In in H.
  apply filter_In in H. apply H.
Qed.


(** X18.  Ranking a ranked list again changes nothing. *)
Theorem suggest_tabs_idempotent :
  forall (tabs : list record) (query : pystr) (nmax : nat),
    suggest_tabs (suggest_tabs tabs query nmax) query nmax
    = suggest_tabs tabs query nmax.
Proof.
  intros tabs query nmax.
  assert (Hs : Sorted (key_le (by_score query)) (suggest_tabs tabs query nmax)).
  { apply Sorted_firstn, sorted_Sorted. }
  assert (Hall : filter (above query) (suggest_tabs tabs query nmax)
                 = suggest_tabs tabs query nmax).
  { apply forallb_filter_id, forallb_forall. intros r Hr.
    apply In_firstn in Hr. apply sorted_In in Hr. apply filter_In in Hr.
    apply Hr. }
  unfold Fftabs.suggest_tabs at 1. rewrite Hall, (sorted_fixed _ _ _ Hs).
  apply firstn_all2. unfold Fftabs.suggest_tabs. apply firstn_le_length.
Qed.


End RankerMore.

(** X20.  The score reads the title and the URL through [lower] only: two
    records whose titles and whose URLs have the same lower-cased forms
    score alike for every query, as do an ASCII record and the record
    with title and URL in upper case. *)
Theorem value_record_recasing :
  (forall (lower : pystr -> pystr) (urlparse : pystr -> ParseResult)
          (query title title' url url' : pystr),
     lower title' = lower title -> lower url' = lower url ->
     Fftabs.value lower urlparse query (title', url')
     = Fftabs.value lower urlparse query (title, url)) /\
  (forall (urlparse : pystr -> ParseResult) (query title url : pystr),
     Forall (fun c => (c < 128)%N) title ->
     Forall (fun c => (c < 128)%N) url ->
     Fftabs.value py_lower urlparse query (py_upper title, py_upper url)
     = Fftabs.value py_lower urlparse query (title, url)).
Proof.
  assert (H : forall lower urlparse query title title' url url',
             lower title' = lower title -> lower url' = lower url ->
             Fftabs.value lower urlparse query (title', url')
             = Fftabs.value lower urlparse query (title, url)).
  { intros lower urlparse query title title' url url' Et Eu.
    unfold Fftabs.value. rewrite Et, Eu. reflexivity. }
  split; [exact H|].
  intros urlparse query title url Ht Hu.
  apply H; apply py_lower_upper_ascii; assumption.
Qed.

(** * The further properties on concrete inputs *)

Local Abbreviation demo_collect :=
  (Fftabs.collect_tabs demo_open_rb demo_decompress demo_json_loads).

Lemma demo_collect_twice :
  demo_collect [profile_b; profile_b] = Ok [Fftabs.of_record gmail_tab].
Proof. vm_compute. reflexivity. Qed.

Lemma collect_tabs_distinct_witness :
  distinct [Fftabs.of_record gmail_tab].
Proof.
  exact (collect_tabs_distinct demo_open_rb demo_decompress demo_json_loads
           [profile_b; profile_b] _ demo_collect_twice).
Defined.

Lemma collect_tabs_sound_witness :
  hashable_tab (Fftabs.of_record gmail_tab) /\
  exists f ts,
    In f [profile_b; profile_b] /\
    (data <- Fftabs.read_jsonlz4 demo_open_rb demo_decompress demo_json_loads f ;;
     Fftabs.tab_info data) = Ok ts /\
    In (Fftabs.of_record gmail_tab) ts.
Proof.
  apply (collect_tabs_sound demo_open_rb demo_decompress demo_json_loads
           [profile_b; profile_b] [Fftabs.of_record gmail_tab]).
  - exact demo_collect_twice.
  - left. reflexivity.
Defined.

Lemma collect_tabs_again_witness :
  demo_collect ([profile_b] ++ [profile_b]) = Ok [Fftabs.of_record gmail_tab].
Proof.
  apply collect_tabs_again.
  - vm_compute. reflexivity.
  - left. reflexivity.
Defined.

Lemma unhashable_tab_aborts_witness :
  Fftabs.main py_lower py_urlparse demo_open_rb demo_decompress
    demo_json_loads_list [script] ([] ++ profile_b :: [profile_a])
  = Raise TypeError.
Proof.
  apply (unhashable_tab_aborts py_lower py_urlparse demo_open_rb
           demo_decompress demo_json_loads_list [script] [] profile_b
           [profile_a]
           [(JList [JStr (str "a")], JStr (str "about:blank"))]).
  - intros f [].
  - vm_compute. reflexivity.
  - apply Exists_cons_hd. vm_compute. discriminate.
Defined.


Lemma demo_main_mail :
  demo_main [script; str "mail"] [profile_b]
  = Ok [(1, Fftabs.of_record gmail_tab)].
Proof. vm_compute. reflexivity. Qed.



Lemma read_jsonlz4_skips_header_witness :
  Fftabs.read_jsonlz4 demo_open_rb demo_decompress demo_json_loads profile_b
  = (text <- demo_decompress [Byte.x01] ;; demo_json_loads text).
Proof.
  apply (proj1 (read_jsonlz4_skips_header demo_open_rb demo_decompress
                  demo_json_loads profile_b profile_b demo_header demo_header
                  [Byte.x01] eq_refl eq_refl eq_refl)).
Defined.

Local Abbreviation demo_session_files os_name getenv :=
  (Discovery.session_files os_name getenv demo_path_join demo_listdir
     demo_isfile).

Lemma session_files_on_windows_witness :
  exists files,
    demo_session_files (str "nt") demo_getenv = Ok files /\
    (forall f,
       In f files <->
       exists profile,
         In profile [str "p1"; str "p2"] /\
         (f = demo_path_join demo_profiles [profile; Discovery.FILENAME] \/
          f = demo_path_join demo_profiles [profile; Discovery.FALLBACK]) /\
         demo_isfile f = true) /\
    length files <= 2 * length [str "p1"; str "p2"].
Proof.
  apply (session_files_on_windows (str "nt") demo_getenv demo_path_join
           demo_listdir demo_isfile demo_appdata [str "p1"; str "p2"]).
  - reflexivity.
  - reflexivity.
  - vm_compute. reflexivity.
Defined.

Lemma session_files_raises_witness :
  demo_session_files (str "nt") (fun _ => None) = Raise TypeError.
Proof.
  apply (proj2 (session_files_raises (str "nt") (fun _ => None)
                  demo_path_join demo_listdir demo_isfile TypeError)).
  split; [reflexivity|]. left. split; reflexivity.
Defined.

Lemma program_prints_nothing_elsewhere_witness :
  Discovery.program (str "posix") demo_getenv demo_path_join demo_listdir
    demo_isfile py_lower py_urlparse demo_open_rb demo_decompress
    demo_json_loads [script; str "mail"] = Ok [].
Proof.
  apply (proj2 (program_prints_nothing_elsewhere (str "posix") demo_getenv
                  demo_path_join demo_listdir demo_isfile py_lower py_urlparse
                  demo_open_rb demo_decompress demo_json_loads eq_refl)).
Defined.


Lemma github_matches_git :
  3 <= length (py_lower (str "git")) /\
  occurs (py_lower (str "git")) (py_lower (fst github_tab)).
Proof.
  split; [simpl; lia|]. apply contains_spec. vm_compute. reflexivity.
Qed.





Lemma value_record_recasing_witness :
  Fftabs.value py_lower py_urlparse (str "git")
    (py_upper (str "GitHub"), py_upper (str "https://github.com/"))
  = Fftabs.value py_lower py_urlparse (str "git")
      (str "GitHub", str "https://github.com/").
Proof.
  apply (proj2 value_record_recasing py_urlparse (str "git")
           (str "GitHub") (str "https://github.com/"));
    repeat constructor.
Defined.
